(** * Rpg-TDA-Colas: quest progression over a relational store

    A shallow embedding of the FastAPI endpoints of [main.py], of the
    tables declared in [database.py] and of the [ColaMisiones] queue of
    [tda_cola.py], together with the properties of the quest engine.

    Conventions of the embedding:
    - Python [int] values are unbounded, hence [Z]; an INTEGER column of
      the store holds 64-bit values, and writing an experience or a
      reward outside that range raises [OverflowError]; identifiers and
      [orden] values are taken inside that range;
    - a Python [str] is a sequence of code points ([len] counts them);
    - a table is the list of its rows in rowid order;
    - an endpoint is a function from the store to the store after the
      call (the committed one, or the one it started from after
      [db.rollback()]) and the outcome, a raised exception or a value. *)

From Stdlib Require Import ZArith List Lia Bool String Ascii Sorted Permutation.
Import ListNotations.
Open Scope Z_scope.

(** ** Python values *)

Definition str := list N.

Definition lit (s : string) : str :=
  List.map N_of_ascii (list_ascii_of_string s).

Definition str_eqb (a b : str) : bool :=
  if list_eq_dec N.eq_dec a b then true else false.

Definition len {A : Type} (l : list A) : Z := Z.of_nat (List.length l).

(** Truth value of an [Optional[int]]: [None] and [0] are falsy. *)
Definition truthy (o : option Z) : bool :=
  match o with
  | None => false
  | Some v => negb (v =? 0)
  end.

(** [o or d] for an [Optional[int]]. *)
Definition py_or (o : option Z) (d : Z) : Z :=
  match o with
  | None => d
  | Some v => if v =? 0 then d else v
  end.

(** Exceptions the code raises or receives from the framework and the
    store. The detail of an [HTTPException] is either a literal message
    or the f-string of the handlers, a prefix followed by [str(e)];
    [RequestValidationError] names the parameters that FastAPI rejected
    against the constraints declared in the endpoint's signature. *)
Inductive Exception : Type :=
| HTTPException (status_code : Z) (detail : Detail)
| RequestValidationError (loc : list string)
| IntegrityError (tabla : string)
| OverflowError
| IndexError
with Detail : Type :=
| Texto (mensaje : string)
| Envuelto (prefijo : string) (e : Exception).

Definition Result (A : Type) : Type := (Exception + A)%type.

(** The values an INTEGER column of the store holds; the driver raises
    [OverflowError] when asked to bind any other [int]. *)
Definition INT64_MAX : Z := 9223372036854775807.

Definition en_rango (v : Z) : bool :=
  (- INT64_MAX - 1 <=? v) && (v <=? INT64_MAX).

(** ** tda_cola.py *)

Module ColaMisiones.

Record t : Type := { items : list Z }.

Definition init : t := {| items := [] |}.

(** [deque.popleft()] raises [IndexError] on an empty deque. *)
Definition popleft (d : list Z) : Result (Z * list Z) :=
  match d with
  | [] => inl IndexError
  | x :: rest => inr (x, rest)
  end.

(** [deque[0]] raises [IndexError] on an empty deque. *)
Definition index0 (d : list Z) : Result Z :=
  match d with
  | [] => inl IndexError
  | x :: _ => inr x
  end.

Definition is_empty (self : t) : bool := len (items self) =? 0.

Definition size (self : t) : Z := len (items self).

Definition enqueue (self : t) (mission_id : Z) : t * Result (option Z) :=
  ({| items := items self ++ [mission_id] |}, inr None).

Definition dequeue (self : t) : t * Result (option Z) :=
  if negb (is_empty self) then
    match popleft (items self) with
    | inl e => (self, inl e)
    | inr (x, rest) => ({| items := rest |}, inr (Some x))
    end
  else (self, inr None).

Definition first (self : t) : t * Result (option Z) :=
  if negb (is_empty self) then
    match index0 (items self) with
    | inl e => (self, inl e)
    | inr x => (self, inr (Some x))
    end
  else (self, inr None).

(** Calls made on one queue object, and the values they return. *)
Inductive call : Type :=
| Enqueue (mission_id : Z)
| Dequeue
| First.

Definition exec (c : call) (self : t) : t * Result (option Z) :=
  match c with
  | Enqueue m => enqueue self m
  | Dequeue => dequeue self
  | First => first self
  end.

Fixpoint run (cs : list call) (self : t) : t * list (Result (option Z)) :=
  match cs with
  | [] => (self, [])
  | c :: cs' =>
      let '(self1, r) := exec c self in
      let '(self2, rs) := run cs' self1 in
      (self2, r :: rs)
  end.

(** The identifiers passed to [enqueue], in call order. *)
Fixpoint enqueued (cs : list call) : list Z :=
  match cs with
  | [] => []
  | Enqueue m :: cs' => m :: enqueued cs'
  | _ :: cs' => enqueued cs'
  end.

(** The identifiers handed out by the [dequeue] calls, in call order. *)
Fixpoint dequeued (cs : list call) (rs : list (Result (option Z))) : list Z :=
  match cs, rs with
  | Dequeue :: cs', inr (Some x) :: rs' => x :: dequeued cs' rs'
  | _ :: cs', _ :: rs' => dequeued cs' rs'
  | _, _ => []
  end.

Definition raised (r : Result (option Z)) : bool :=
  match r with
  | inl _ => true
  | inr _ => false
  end.

End ColaMisiones.

(** ** database.py: tables and rows *)

Module Personaje.
Record t : Type :=
  { id : Z; nombre : str; xp : Z; mision_activa_id : option Z }.
End Personaje.

Module Mision.
Record t : Type := { id : Z; titulo : str; xp : Z }.
End Mision.

(** A row of [personaje_misiones_completadas]. *)
Module Completada.
Record t : Type := { personaje_id : Z; mision_id : Z }.
End Completada.

(** A row of [personaje_misiones_pendientes]. *)
Module Pendiente.
Record t : Type := { personaje_id : Z; mision_id : Z; orden : Z }.
End Pendiente.

Record DB : Type :=
  { personajes : list Personaje.t;
    misiones : list Mision.t;
    personaje_misiones_completadas : list Completada.t;
    personaje_misiones_pendientes : list Pendiente.t }.

(** [Base.metadata.create_all] on a fresh file. *)
Definition empty_db : DB :=
  {| personajes := [];
     misiones := [];
     personaje_misiones_completadas := [];
     personaje_misiones_pendientes := [] |}.

(** SQL [MAX] over a column: [NULL] on no rows. *)
Fixpoint sql_max (l : list Z) : option Z :=
  match l with
  | [] => None
  | x :: l' =>
      match sql_max l' with
      | None => Some x
      | Some m => Some (Z.max x m)
      end
  end.

(** The rowid SQLite gives to a new row of an [INTEGER PRIMARY KEY]
    table: one more than the largest in use, 1 in an empty table. *)
Definition next_rowid (ids : list Z) : Z :=
  match sql_max ids with
  | None => 1
  | Some m => m + 1
  end.

(** [db.query(Personaje).get(personaje_id)], for an identifier that is
    an INTEGER value of the store. *)
Definition get_personaje (db : DB) (personaje_id : Z) : option Personaje.t :=
  find (fun p => Personaje.id p =? personaje_id) (personajes db).

(** [db.query(Mision).get(mision_id)], for an identifier that is an
    INTEGER value of the store. *)
Definition get_mision (db : DB) (mision_id : Z) : option Mision.t :=
  find (fun m => Mision.id m =? mision_id) (misiones db).

(** [db.query(Personaje).filter(Personaje.nombre == nombre).first()] *)
Definition first_personaje_nombre (db : DB) (nombre : str) : option Personaje.t :=
  find (fun p => str_eqb (Personaje.nombre p) nombre) (personajes db).

(** [db.query(Mision).filter(Mision.titulo == titulo).first()] *)
Definition first_mision_titulo (db : DB) (titulo : str) : option Mision.t :=
  find (fun m => str_eqb (Mision.titulo m) titulo) (misiones db).

(** Rows of the pending table [WHERE personaje_id = :pid]. *)
Definition pendientes_de (db : DB) (pid : Z) : list Pendiente.t :=
  filter (fun r => Pendiente.personaje_id r =? pid)
         (personaje_misiones_pendientes db).

(** Rows of the completed table [WHERE personaje_id = :pid]. *)
Definition completadas_de (db : DB) (pid : Z) : list Completada.t :=
  filter (fun r => Completada.personaje_id r =? pid)
         (personaje_misiones_completadas db).

(** [ORDER BY orden ASC], rows of equal [orden] kept in rowid order. *)
Fixpoint insertar_por_orden (r : Pendiente.t) (l : list Pendiente.t)
  : list Pendiente.t :=
  match l with
  | [] => [r]
  | x :: l' =>
      if Pendiente.orden r <=? Pendiente.orden x then r :: l
      else x :: insertar_por_orden r l'
  end.

Fixpoint order_by_orden (l : list Pendiente.t) : list Pendiente.t :=
  match l with
  | [] => []
  | r :: l' => insertar_por_orden r (order_by_orden l')
  end.

(** [SELECT MAX(orden) FROM personaje_misiones_pendientes
     WHERE personaje_id = :pid] *)
Definition select_max_orden (db : DB) (pid : Z) : option Z :=
  sql_max (List.map Pendiente.orden (pendientes_de db pid)).

(** [SELECT mision_id FROM personaje_misiones_pendientes
     WHERE personaje_id = :pid ORDER BY orden ASC LIMIT 1], [fetchone()] *)
Definition select_siguiente (db : DB) (pid : Z) : option Z :=
  match order_by_orden (pendientes_de db pid) with
  | [] => None
  | r :: _ => Some (Pendiente.mision_id r)
  end.

(** The composite primary key of the two association tables. *)
Definition pk_pendiente (pid mid : Z) (r : Pendiente.t) : bool :=
  (Pendiente.personaje_id r =? pid) && (Pendiente.mision_id r =? mid).

Definition pk_completada (pid mid : Z) (r : Completada.t) : bool :=
  (Completada.personaje_id r =? pid) && (Completada.mision_id r =? mid).

(** [INSERT INTO personaje_misiones_pendientes ...]: the primary key
    rejects a second row for the same character and quest. *)
Definition insert_pendiente (db : DB) (pid mid ord : Z) : Result DB :=
  if existsb (pk_pendiente pid mid) (personaje_misiones_pendientes db)
  then inl (IntegrityError "personaje_misiones_pendientes")
  else inr
    {| personajes := personajes db;
       misiones := misiones db;
       personaje_misiones_completadas := personaje_misiones_completadas db;
       personaje_misiones_pendientes :=
         personaje_misiones_pendientes db ++
         [ {| Pendiente.personaje_id := pid;
              Pendiente.mision_id := mid;
              Pendiente.orden := ord |} ] |}.

(** [INSERT INTO personaje_misiones_completadas ...] *)
Definition insert_completada (db : DB) (pid mid : Z) : Result DB :=
  if existsb (pk_completada pid mid) (personaje_misiones_completadas db)
  then inl (IntegrityError "personaje_misiones_completadas")
  else inr
    {| personajes := personajes db;
       misiones := misiones db;
       personaje_misiones_completadas :=
         personaje_misiones_completadas db ++
         [ {| Completada.personaje_id := pid; Completada.mision_id := mid |} ];
       personaje_misiones_pendientes := personaje_misiones_pendientes db |}.

(** [DELETE FROM personaje_misiones_pendientes
     WHERE personaje_id = :pid AND mision_id = :mid] *)
Definition delete_pendiente (db : DB) (pid mid : Z) : DB :=
  {| personajes := personajes db;
     misiones := misiones db;
     personaje_misiones_completadas := personaje_misiones_completadas db;
     personaje_misiones_pendientes :=
       filter (fun r => negb (pk_pendiente pid mid r))
              (personaje_misiones_pendientes db) |}.

(** The [UPDATE personajes ... WHERE id = ?] a changed ORM object is
    flushed as. *)
Definition update_personaje (db : DB) (p : Personaje.t) : DB :=
  {| personajes :=
       List.map (fun q => if Personaje.id q =? Personaje.id p then p else q)
                (personajes db);
     misiones := misiones db;
     personaje_misiones_completadas := personaje_misiones_completadas db;
     personaje_misiones_pendientes := personaje_misiones_pendientes db |}.

(** [db.add(Personaje(nombre=..., xp=0))], commit and refresh. *)
Definition add_personaje (db : DB) (nombre : str) (xp : Z) : Personaje.t * DB :=
  let p := {| Personaje.id := next_rowid (List.map Personaje.id (personajes db));
              Personaje.nombre := nombre;
              Personaje.xp := xp;
              Personaje.mision_activa_id := None |} in
  (p, {| personajes := personajes db ++ [p];
         misiones := misiones db;
         personaje_misiones_completadas := personaje_misiones_completadas db;
         personaje_misiones_pendientes := personaje_misiones_pendientes db |}).

(** [db.add(Mision(titulo=..., xp=...))], commit and refresh; the reward
    is bound to an INTEGER column and the column [titulo] is declared
    [unique=True]. *)
Definition add_mision (db : DB) (titulo : str) (xp : Z) : Result (Mision.t * DB) :=
  if negb (en_rango xp) then inl OverflowError
  else if existsb (fun m => str_eqb (Mision.titulo m) titulo) (misiones db)
  then inl (IntegrityError "misiones")
  else
    let m := {| Mision.id := next_rowid (List.map Mision.id (misiones db));
                Mision.titulo := titulo;
                Mision.xp := xp |} in
    inr (m, {| personajes := personajes db;
               misiones := misiones db ++ [m];
               personaje_misiones_completadas := personaje_misiones_completadas db;
               personaje_misiones_pendientes := personaje_misiones_pendientes db |}).

(** ** main.py: the endpoints *)

(** Code running inside a session: it reads and writes the store and may
    raise. *)
Definition M (A : Type) : Type := DB -> Result (A * DB).

Definition ret {A : Type} (a : A) : M A := fun db => inr (a, db).

Definition raise {A : Type} (e : Exception) : M A := fun _ => inl e.

Definition bind {A B : Type} (c : M A) (k : A -> M B) : M B :=
  fun db =>
    match c db with
    | inl e => inl e
    | inr (a, db') => k a db'
    end.

Notation "x <- c ;; k" := (bind c (fun x => k))
  (at level 61, c at next level, right associativity).
Notation "c ;; k" := (bind c (fun _ => k))
  (at level 61, right associativity).

(** A [SELECT], a statement that cannot fail, and one that can. *)
Definition query {A : Type} (f : DB -> A) : M A := fun db => inr (f db, db).

Definition write (f : DB -> DB) : M unit := fun db => inr (tt, f db).

Definition execute (f : DB -> Result DB) : M unit :=
  fun db =>
    match f db with
    | inl e => inl e
    | inr db' => inr (tt, db')
    end.

(** [try: body; db.commit() except Exception as e: db.rollback();
    raise handler(e)]: the store after the call is the committed one or
    the one the call started from. *)
Definition try_except {A : Type} (body : M A) (handler : Exception -> Exception)
  (db : DB) : DB * Result A :=
  match body db with
  | inl e => (db, inl (handler e))
  | inr (a, db') => (db', inr a)
  end.

(** [personaje.mision_activa_id == mision_id] *)
Definition activa_eqb (o : option Z) (mision_id : Z) : bool :=
  match o with
  | None => false
  | Some a => a =? mision_id
  end.

Definition set_mision_activa_id (p : Personaje.t) (o : option Z) : Personaje.t :=
  {| Personaje.id := Personaje.id p;
     Personaje.nombre := Personaje.nombre p;
     Personaje.xp := Personaje.xp p;
     Personaje.mision_activa_id := o |}.

Definition set_xp (p : Personaje.t) (v : Z) : Personaje.t :=
  {| Personaje.id := Personaje.id p;
     Personaje.nombre := Personaje.nombre p;
     Personaje.xp := v;
     Personaje.mision_activa_id := Personaje.mision_activa_id p |}.

(** The dictionary [{"id": m.id, "titulo": m.titulo, "xp": m.xp}]. *)
Module MisionJSON.
Record t : Type := { id : Z; titulo : str; xp : Z }.
End MisionJSON.

Definition mision_json (m : Mision.t) : MisionJSON.t :=
  {| MisionJSON.id := Mision.id m;
     MisionJSON.titulo := Mision.titulo m;
     MisionJSON.xp := Mision.xp m |}.

(** *** POST /personajes *)

Record PersonajeCreado : Type :=
  { pc_id : Z; pc_nombre : str; pc_xp : Z }.

(** The request body is a dictionary; [nombre] is [personaje.get("nombre")]. *)
Definition crear_personaje (nombre : option str) : DB -> DB * Result PersonajeCreado :=
  try_except
    (match nombre with
     | None | Some [] =>
         raise (HTTPException 400 (Texto "El nombre es requerido"))
     | Some n =>
         existe <- query (fun db => first_personaje_nombre db n) ;;
         match existe with
         | Some _ =>
             raise (HTTPException 400
                      (Texto "Ya existe un personaje con este nombre"))
         | None =>
             fun db =>
               let '(nuevo_personaje, db') := add_personaje db n 0 in
               inr ({| pc_id := Personaje.id nuevo_personaje;
                       pc_nombre := Personaje.nombre nuevo_personaje;
                       pc_xp := Personaje.xp nuevo_personaje |}, db')
         end
     end)
    (fun e => HTTPException 400 (Envuelto "Error creando personaje: " e)).

(** *** POST /misiones *)

Record MisionCreada : Type :=
  { mc_id : Z; mc_titulo : str; mc_xp : Z; mc_mensaje : string }.

(** [titulo: str = Query(..., min_length=3)], [xp: int = Query(..., gt=0)] *)
Definition validar_crear_mision (titulo : str) (xp : Z) : list string :=
  (if len titulo <? 3 then ["titulo"%string] else []) ++
  (if xp <=? 0 then ["xp"%string] else []).

Definition crear_mision (titulo : str) (xp : Z) (db : DB)
  : DB * Result MisionCreada :=
  match validar_crear_mision titulo xp with
  | (_ :: _) as loc => (db, inl (RequestValidationError loc))
  | [] =>
      try_except
        (existe <- query (fun db => first_mision_titulo db titulo) ;;
         match existe with
         | Some _ =>
             raise (HTTPException 400
                      (Texto "Ya existe una misión con este título"))
         | None =>
             fun db =>
               match add_mision db titulo xp with
               | inl e => inl e
               | inr (mission, db') =>
                   inr ({| mc_id := Mision.id mission;
                           mc_titulo := Mision.titulo mission;
                           mc_xp := Mision.xp mission;
                           mc_mensaje := "Misión creada exitosamente" |}, db')
               end
         end)
        (fun e => HTTPException 400 (Envuelto "Error creando misión: " e))
        db
  end.

(** *** GET /personajes/{personaje_id}/misiones *)

Record MisionesPersonaje : Type :=
  { mp_personaje_id : Z;
    mp_mision_activa : option MisionJSON.t;
    mp_misiones_pendientes : list MisionJSON.t;
    mp_misiones_completadas : list MisionJSON.t;
    mp_misiones_disponibles : list MisionJSON.t }.

(** The relationship [Personaje.misiones_pendientes]: the quests joined to
    the character's rows of the pending table, [order_by] its [orden]. *)
Definition rel_misiones_pendientes (db : DB) (pid : Z) : list Mision.t :=
  flat_map
    (fun r => filter (fun m => Mision.id m =? Pendiente.mision_id r) (misiones db))
    (order_by_orden (pendientes_de db pid)).

(** The rows of the completed table as the store walks them for one
    character: along the primary-key index [(personaje_id, mision_id)],
    hence by [mision_id]. *)
Fixpoint insertar_por_mision (r : Completada.t) (l : list Completada.t)
  : list Completada.t :=
  match l with
  | [] => [r]
  | x :: l' =>
      if Completada.mision_id r <=? Completada.mision_id x then r :: l
      else x :: insertar_por_mision r l'
  end.

Fixpoint por_mision_id (l : list Completada.t) : list Completada.t :=
  match l with
  | [] => []
  | r :: l' => insertar_por_mision r (por_mision_id l')
  end.

(** The relationship [Personaje.misiones_completadas]: it declares no
    [order_by], so the quests come in the order of the index walk. *)
Definition rel_misiones_completadas (db : DB) (pid : Z) : list Mision.t :=
  flat_map
    (fun r => filter (fun m => Mision.id m =? Completada.mision_id r) (misiones db))
    (por_mision_id (completadas_de db pid)).

(** [Mision.id.in_(subquery)] *)
Definition id_in (i : Z) (subquery : list Z) : bool :=
  existsb (fun j => i =? j) subquery.

(** The inner [try] blocks of the endpoint only log what they catch; the
    reads they guard do not raise. *)
Definition listar_misiones_personaje (personaje_id : Z)
  : DB -> DB * Result MisionesPersonaje :=
  try_except
    (personaje <- query (fun db => get_personaje db personaje_id) ;;
     match personaje with
     | None => raise (HTTPException 404 (Texto "Personaje no encontrado"))
     | Some personaje =>
         mision_activa <-
           (if truthy (Personaje.mision_activa_id personaje) then
              m <- query (fun db =>
                     get_mision db (py_or (Personaje.mision_activa_id personaje) 0)) ;;
              match m with
              | None =>
                  raise (HTTPException 500 (Texto "Misión activa no encontrada"))
              | Some m => ret (Some m)
              end
            else ret None) ;;
         misiones_pendientes <-
           query (fun db => rel_misiones_pendientes db personaje_id) ;;
         misiones_completadas <-
           query (fun db => rel_misiones_completadas db personaje_id) ;;
         misiones_disponibles <-
           query (fun db =>
             let subquery_pendientes :=
               List.map Pendiente.mision_id (pendientes_de db personaje_id) in
             let subquery_completadas :=
               List.map Completada.mision_id (completadas_de db personaje_id) in
             filter
               (fun m =>
                  negb (id_in (Mision.id m) subquery_pendientes) &&
                  negb (id_in (Mision.id m) subquery_completadas) &&
                  negb (Mision.id m =? py_or (Personaje.mision_activa_id personaje) 0))
               (misiones db)) ;;
         ret {| mp_personaje_id := personaje_id;
                mp_mision_activa := option_map mision_json mision_activa;
                mp_misiones_pendientes := List.map mision_json misiones_pendientes;
                mp_misiones_completadas := List.map mision_json misiones_completadas;
                mp_misiones_disponibles := List.map mision_json misiones_disponibles |}
     end)
    (fun e =>
       match e with
       | HTTPException _ _ => e
       | _ => HTTPException 500 (Envuelto "Error interno al obtener misiones: " e)
       end).

(** *** GET /personajes/{personaje_id}/misiones/disponibles *)

Definition listar_misiones_disponibles (personaje_id : Z)
  : DB -> DB * Result (list MisionJSON.t) :=
  try_except
    (personaje <- query (fun db => get_personaje db personaje_id) ;;
     match personaje with
     | None => raise (HTTPException 404 (Texto "Personaje no encontrado"))
     | Some personaje =>
         misiones <-
           query (fun db =>
             let misiones_pendientes :=
               List.map Pendiente.mision_id (pendientes_de db personaje_id) in
             let misiones_completadas :=
               List.map Completada.mision_id (completadas_de db personaje_id) in
             filter
               (fun m =>
                  negb (id_in (Mision.id m) misiones_pendientes) &&
                  negb (id_in (Mision.id m) misiones_completadas) &&
                  (if truthy (Personaje.mision_activa_id personaje)
                   then negb (activa_eqb (Personaje.mision_activa_id personaje)
                                         (Mision.id m))
                   else true))
               (misiones db)) ;;
         ret (List.map mision_json misiones)
     end)
    (fun e =>
       HTTPException 500 (Envuelto "Error obteniendo misiones disponibles: " e)).

(** *** POST /personajes/{personaje_id}/misiones/{mision_id} *)

Record MisionAsignada : Type :=
  { as_mensaje : string; as_mision_activa : bool; as_en_cola : bool }.

Definition asignar_mision (personaje_id mision_id : Z)
  : DB -> DB * Result MisionAsignada :=
  try_except
    (personaje <- query (fun db => get_personaje db personaje_id) ;;
     match personaje with
     | None => raise (HTTPException 404 (Texto "Personaje no encontrado"))
     | Some personaje =>
         mision <- query (fun db => get_mision db mision_id) ;;
         match mision with
         | None => raise (HTTPException 404 (Texto "Misión no encontrada"))
         | Some _ =>
             personaje <-
               (if negb (truthy (Personaje.mision_activa_id personaje)) then
                  let personaje := set_mision_activa_id personaje (Some mision_id) in
                  write (fun db => update_personaje db personaje) ;;
                  ret personaje
                else
                  max_orden <-
                    query (fun db => py_or (select_max_orden db personaje_id) 0) ;;
                  execute (fun db =>
                    insert_pendiente db personaje_id mision_id (max_orden + 1)) ;;
                  ret personaje) ;;
             ret {| as_mensaje := "Misión asignada correctamente";
                    as_mision_activa :=
                      activa_eqb (Personaje.mision_activa_id personaje) mision_id;
                    as_en_cola :=
                      negb (activa_eqb (Personaje.mision_activa_id personaje)
                                       mision_id) |}
         end
     end)
    (fun e => HTTPException 400 (Envuelto "Error asignando misión: " e)).

(** *** POST /personajes/{personaje_id}/completar *)

Record MisionCompletada : Type :=
  { co_mensaje : string; co_xp_ganada : Z; co_xp_total : Z }.

(** [db.commit()] flushes the changed character as one [UPDATE]; the
    new experience is bound to an INTEGER column. *)
Definition commit_personaje (db : DB) (p : Personaje.t) : Result DB :=
  if en_rango (Personaje.xp p) then inr (update_personaje db p)
  else inl OverflowError.

(** The session is created with [autoflush=False]: the changes made to
    [personaje] stay in the session until [db.commit()], after the two
    statements executed as text. *)
Definition completar_mision (personaje_id : Z)
  : DB -> DB * Result MisionCompletada :=
  try_except
    (personaje <- query (fun db => get_personaje db personaje_id) ;;
     match personaje with
     | None => raise (HTTPException 404 (Texto "Personaje no encontrado"))
     | Some personaje =>
         if negb (truthy (Personaje.mision_activa_id personaje)) then
           raise (HTTPException 400 (Texto "El personaje no tiene misión activa"))
         else
           let activa := py_or (Personaje.mision_activa_id personaje) 0 in
           mision <- query (fun db => get_mision db activa) ;;
           match mision with
           | None =>
               raise (HTTPException 404 (Texto "Misión activa no encontrada"))
           | Some mision =>
               siguiente_mision <-
                 query (fun db => select_siguiente db personaje_id) ;;
               let xp_ganada := Mision.xp mision in
               let personaje := set_xp personaje (Personaje.xp personaje + xp_ganada) in
               execute (fun db => insert_completada db personaje_id activa) ;;
               personaje <-
                 match siguiente_mision with
                 | Some siguiente =>
                     let personaje := set_mision_activa_id personaje (Some siguiente) in
                     write (fun db => delete_pendiente db personaje_id siguiente) ;;
                     ret personaje
                 | None =>
                     ret (set_mision_activa_id personaje None)
                 end ;;
               execute (fun db => commit_personaje db personaje) ;;
               ret {| co_mensaje := "Misión completada exitosamente";
                      co_xp_ganada := xp_ganada;
                      co_xp_total := Personaje.xp personaje |}
           end
     end)
    (fun e => HTTPException 500 (Envuelto "Error completando misión: " e)).

(** ** Requests and the stores they lead to *)

Inductive Request : Type :=
| CrearPersonaje (nombre : option str)
| CrearMision (titulo : str) (xp : Z)
| ListarMisionesPersonaje (personaje_id : Z)
| ListarMisionesDisponibles (personaje_id : Z)
| AsignarMision (personaje_id mision_id : Z)
| CompletarMision (personaje_id : Z).

(** The store a request leaves behind. *)
Definition handle (r : Request) (db : DB) : DB :=
  match r with
  | CrearPersonaje nombre => fst (crear_personaje nombre db)
  | CrearMision titulo xp => fst (crear_mision titulo xp db)
  | ListarMisionesPersonaje pid => fst (listar_misiones_personaje pid db)
  | ListarMisionesDisponibles pid => fst (listar_misiones_disponibles pid db)
  | AsignarMision pid mid => fst (asignar_mision pid mid db)
  | CompletarMision pid => fst (completar_mision pid db)
  end.

Definition run (rs : list Request) (db : DB) : DB :=
  fold_left (fun d r => handle r d) rs db.

(** The stores the API can produce from a freshly created database. *)
Inductive reachable : DB -> Prop :=
| reachable_empty : reachable empty_db
| reachable_step (r : Request) (db : DB) :
    reachable db -> reachable (handle r db).

(** ** The progression record of a character, read off the store *)

Definition active_quest (db : DB) (pid : Z) : option Z :=
  match get_personaje db pid with
  | Some p => Personaje.mision_activa_id p
  | None => None
  end.

Definition xp_total (db : DB) (pid : Z) : option Z :=
  option_map Personaje.xp (get_personaje db pid).

(** Quest identifiers of the backlog, in the order of the relationship. *)
Definition pending_queue (db : DB) (pid : Z) : list Z :=
  List.map Pendiente.mision_id (order_by_orden (pendientes_de db pid)).

Definition completed_set (db : DB) (pid : Z) : list Z :=
  List.map Completada.mision_id (completadas_de db pid).

(** The handlers of the two engine endpoints. *)
Definition error_asignar (e : Exception) : Exception :=
  HTTPException 400 (Envuelto "Error asignando misión: " e).

Definition error_completar (e : Exception) : Exception :=
  HTTPException 500 (Envuelto "Error completando misión: " e).

(** ** The engine as the specification words it *)

(** [list_available]: the catalog quests, in catalog order, that are not
    the character's active quest, not in its pending queue and not in
    its completed set. *)
Definition spec_list_available (db : DB) (pid : Z) : list Mision.t :=
  filter
    (fun m =>
       negb (activa_eqb (active_quest db pid) (Mision.id m)) &&
       negb (id_in (Mision.id m) (pending_queue db pid)) &&
       negb (id_in (Mision.id m) (completed_set db pid)))
    (misiones db).


(** A quest the character neither holds nor has finished. *)
Definition no_asignada (db : DB) (pid mid : Z) : Prop :=
  active_quest db pid <> Some mid /\
  ~ In mid (pending_queue db pid) /\
  ~ In mid (completed_set db pid).

(** The stores reached when every assignment names a quest that the
    character neither holds nor has finished, as a client does that
    offers only the quests of [misiones_disponibles]. *)
Inductive reachable_disponibles : DB -> Prop :=
| reachable_disponibles_empty : reachable_disponibles empty_db
| reachable_disponibles_step (r : Request) (db : DB) :
    reachable_disponibles db ->
    (forall pid mid, r = AsignarMision pid mid -> no_asignada db pid mid) ->
    reachable_disponibles (handle r db).

(** The four parts of the progression-record invariant. *)
Definition registro_disjunto (db : DB) (pid : Z) : Prop :=
  (forall a, active_quest db pid = Some a -> ~ In a (pending_queue db pid)) /\
  (forall a, active_quest db pid = Some a -> ~ In a (completed_set db pid)) /\
  (forall x, In x (pending_queue db pid) -> ~ In x (completed_set db pid)) /\
  NoDup (pending_queue db pid).

(** ** Stores used as examples *)

(** Quests 1 to 3 and character 1, nothing assigned. *)
Definition db_inicial : DB :=
  run [CrearMision (lit "Tutorial") 10;
       CrearMision (lit "Dragon") 100;
       CrearMision (lit "Cueva") 30;
       CrearPersonaje (Some (lit "Ana"))] empty_db.

(** Character 1 works on quest 1. *)
Definition db_activa : DB := run [AsignarMision 1 1] db_inicial.

(** Character 1 works on quest 1 and has quest 2 waiting. *)
Definition db_en_cola : DB := run [AsignarMision 1 2] db_activa.

(** Character 1 has finished quest 1 and was given it again. *)
Definition db_repetida : DB :=
  run [CompletarMision 1; AsignarMision 1 1] db_activa.

(** Four quests; character 1 has finished quest 1, works on quest 2 and
    has quest 3 waiting; character 2 has finished quests 3 and 1, in
    that order. *)
Definition db_variada : DB :=
  run [CrearMision (lit "Torre") 5;
       AsignarMision 1 3; CompletarMision 1;
       CrearPersonaje (Some (lit "Luis"));
       AsignarMision 2 3; AsignarMision 2 1;
       CompletarMision 2; CompletarMision 2] db_en_cola.

(** A quest whose reward is the largest INTEGER value and a quest of
    reward 1; character 1 has finished the first and works on the
    second. *)
Definition db_al_limite : DB :=
  run [CrearMision (lit "Tesoro") INT64_MAX;
       CrearMision (lit "Moneda") 1;
       CrearPersonaje (Some (lit "Ana"));
       AsignarMision 1 1; AsignarMision 1 2; CompletarMision 1] empty_db.

(** Character 1 has finished quest 1, works on it again and has quests 2
    and 1 waiting. *)
Definition db_mezclada : DB :=
  run [AsignarMision 1 2; AsignarMision 1 1] db_repetida.

(** ** What the API maintains in the store *)

Definition pendiente_ok (db : DB) (r : Pendiente.t) : Prop :=
  (exists m, get_mision db (Pendiente.mision_id r) = Some m) /\
  (exists p, get_personaje db (Pendiente.personaje_id r) = Some p /\
             truthy (Personaje.mision_activa_id p) = true).

Definition personaje_ok (db : DB) (p : Personaje.t) : Prop :=
  0 <= Personaje.xp p /\
  forall a, Personaje.mision_activa_id p = Some a ->
            exists m, get_mision db a = Some m.

Definition mision_ok (m : Mision.t) : Prop :=
  0 < Mision.id m /\ 0 < Mision.xp m /\ 3 <= len (Mision.titulo m).

Record Inv (db : DB) : Prop :=
  { inv_misiones : Forall mision_ok (misiones db);
    inv_personajes : Forall (personaje_ok db) (personajes db);
    inv_pendientes : Forall (pendiente_ok db) (personaje_misiones_pendientes db);
    inv_pk_pendientes :
      NoDup (List.map (fun r => (Pendiente.personaje_id r, Pendiente.mision_id r))
                      (personaje_misiones_pendientes db));
    inv_pk_completadas :
      NoDup (List.map (fun r => (Completada.personaje_id r, Completada.mision_id r))
                      (personaje_misiones_completadas db));
    inv_orden :
      forall pid,
        StronglySorted Z.lt (List.map Pendiente.orden (pendientes_de db pid)) }.

(** ** GET /personajes *)

(** The dictionary [{"id": ..., "titulo": ...}] of an active quest. *)
Record MisionActivaJSON : Type := { ma_id : Z; ma_titulo : str }.

Record PersonajeJSON : Type :=
  { pj_id : Z;
    pj_nombre : str;
    pj_xp : Z;
    pj_mision_activa : option MisionActivaJSON }.

(** Lookup in a [dict] built by a comprehension over [(key, value)]
    pairs: a later pair with the same key replaces the earlier one. *)
Definition dict_get {V : Type} (d : list (Z * V)) (k : Z) : option V :=
  option_map snd (find (fun kv => fst kv =? k) (rev d)).

(** Rows are the tuples of the queried columns: a character with all its
    columns, a quest as [(id, titulo)]. The expression
    [misiones_activas[p.mision_activa_id]] is only evaluated under the
    test [p.mision_activa_id in misiones_activas]. *)
Definition listar_personajes : DB -> DB * Result (list PersonajeJSON) :=
  try_except
    (query (fun _ => 1) ;; (* SELECT 1 *)
     personajes <- query (fun db => personajes db) ;;
     match personajes with
     | [] => ret []
     | _ :: _ =>
         let mision_ids :=
           List.map (fun p => py_or (Personaje.mision_activa_id p) 0)
             (filter (fun p => truthy (Personaje.mision_activa_id p)) personajes) in
         misiones_activas <-
           match mision_ids with
           | [] => ret []
           | _ :: _ =>
               misiones <-
                 query (fun db =>
                   List.map (fun m => (Mision.id m, Mision.titulo m))
                     (filter (fun m => id_in (Mision.id m) mision_ids)
                             (misiones db))) ;;
               ret (List.map (fun m => (fst m, m)) misiones)
           end ;;
         ret (List.map
                (fun p =>
                   {| pj_id := Personaje.id p;
                      pj_nombre := Personaje.nombre p;
                      pj_xp := Personaje.xp p;
                      pj_mision_activa :=
                        if truthy (Personaje.mision_activa_id p) then
                          match dict_get misiones_activas
                                  (py_or (Personaje.mision_activa_id p) 0) with
                          | Some m =>
                              Some {| ma_id := py_or (Personaje.mision_activa_id p) 0;
                                      ma_titulo := snd m |}
                          | None => None
                          end
                        else None |})
                personajes)
     end)
    (fun _ => HTTPException 500 (Texto "Error interno al obtener personajes")).

(** ** More of what the API maintains *)

Definition completada_ok (db : DB) (r : Completada.t) : Prop :=
  (exists m, get_mision db (Completada.mision_id r) = Some m) /\
  (exists p, get_personaje db (Completada.personaje_id r) = Some p).

(** The reward of a quest of the catalog, 0 for an unknown identifier. *)
Definition recompensa (db : DB) (mision_id : Z) : Z :=
  match get_mision db mision_id with
  | Some m => Mision.xp m
  | None => 0
  end.

Definition suma (l : list Z) : Z := fold_right Z.add 0 l.

(** The rewards of the quests a character has completed, added up. *)
Definition xp_completadas (db : DB) (pid : Z) : Z :=
  suma (List.map (recompensa db) (completed_set db pid)).

Record Inv2 (db : DB) : Prop :=
  { inv_mision_ids : NoDup (List.map Mision.id (misiones db));
    inv_titulos : NoDup (List.map Mision.titulo (misiones db));
    inv_personaje_ids : NoDup (List.map Personaje.id (personajes db));
    inv_nombres : NoDup (List.map Personaje.nombre (personajes db));
    inv_personaje_bien :
      Forall (fun p => 0 < Personaje.id p /\ Personaje.nombre p <> [])
             (personajes db);
    inv_completadas :
      Forall (completada_ok db) (personaje_misiones_completadas db);
    inv_xp_suma :
      Forall (fun p => Personaje.xp p = xp_completadas db (Personaje.id p))
             (personajes db) }.

(** What [listar_personajes] is to answer for one character: its
    columns, and its active quest looked up in the catalog. *)
Definition personaje_json (db : DB) (p : Personaje.t) : PersonajeJSON :=
  {| pj_id := Personaje.id p;
     pj_nombre := Personaje.nombre p;
     pj_xp := Personaje.xp p;
     pj_mision_activa :=
       match Personaje.mision_activa_id p with
       | None => None
       | Some a =>
           option_map (fun m => {| ma_id := a; ma_titulo := Mision.titulo m |})
                      (get_mision db a)
       end |}.

(** [a] is a prefix of [b]: rows are only ever added after it. *)
Definition prefijo {A : Type} (a b : list A) : Prop := exists c, b = a ++ c.

(** ** Lists, maxima and ordering *)

Lemma sql_max_none (l : list Z) : sql_max l = None -> l = [].
Proof.
  destruct l as [|x l]; cbn; [reflexivity|].
  destruct (sql_max l); discriminate.
Qed.

Lemma sql_max_upper (l : list Z) (m : Z) :
  sql_max l = Some m -> Forall (fun x => x <= m) l.
Proof.
  revert m; induction l as [|x l IH]; intros m H; cbn in H; [constructor|].
  destruct (sql_max l) as [m'|] eqn:E.
  - injection H as <-. constructor; [lia|].
    eapply Forall_impl; [|apply (IH m' eq_refl)].
    cbn; intros; lia.
  - injection H as <-. apply sql_max_none in E; subst.
    constructor; [lia|constructor].
Qed.

Lemma py_or_max_upper (l : list Z) :
  Forall (fun x => x < py_or (sql_max l) 0 + 1) l.
Proof.
  destruct (sql_max l) as [m|] eqn:E.
  - apply sql_max_upper in E.
    eapply Forall_impl; [|exact E].
    cbn; intros a Ha. destruct (Z.eqb_spec m 0); lia.
  - apply sql_max_none in E; subst; constructor.
Qed.

Lemma next_rowid_positive (ids : list Z) :
  Forall (fun x => 0 < x) ids -> 0 < next_rowid ids.
Proof.
  intros H; unfold next_rowid.
  destruct (sql_max ids) as [m|] eqn:E; [|lia].
  destruct ids as [|x ids]; [discriminate|].
  apply sql_max_upper in E.
  inversion H; inversion E; subst; lia.
Qed.

Lemma insertar_por_orden_lt (r : Pendiente.t) (l : list Pendiente.t) :
  Forall (fun x => Pendiente.orden r < Pendiente.orden x) l ->
  insertar_por_orden r l = r :: l.
Proof.
  destruct l as [|x l]; cbn; [reflexivity|].
  intros H; inversion H; subst.
  destruct (Z.leb_spec (Pendiente.orden r) (Pendiente.orden x)); [reflexivity|lia].
Qed.

Lemma order_by_orden_sorted (l : list Pendiente.t) :
  StronglySorted Z.lt (List.map Pendiente.orden l) -> order_by_orden l = l.
Proof.
  induction l as [|r l IH]; cbn; intros H; [reflexivity|].
  inversion H as [|? ? Hs Hf]; subst.
  rewrite (IH Hs). apply insertar_por_orden_lt.
  rewrite Forall_map in Hf. exact Hf.
Qed.

Lemma StronglySorted_filter_map (f : Pendiente.t -> bool) (l : list Pendiente.t) :
  StronglySorted Z.lt (List.map Pendiente.orden l) ->
  StronglySorted Z.lt (List.map Pendiente.orden (filter f l)).
Proof.
  induction l as [|r l IH]; cbn; intros H; [constructor|].
  inversion H as [|? ? Hs Hf]; subst.
  destruct (f r); cbn; [|auto].
  constructor; [auto|].
  rewrite Forall_map in *. rewrite Forall_forall in *.
  intros x Hx. apply Hf. apply filter_In in Hx. tauto.
Qed.

Lemma StronglySorted_snoc (l : list Z) (x : Z) :
  StronglySorted Z.lt l -> Forall (fun y => y < x) l ->
  StronglySorted Z.lt (l ++ [x]).
Proof.
  induction l as [|y l IH]; cbn; intros Hs Hf.
  - constructor; constructor.
  - inversion Hs; inversion Hf; subst.
    constructor; [auto|].
    apply Forall_app; split; [assumption|].
    constructor; [assumption|constructor].
Qed.

Lemma id_in_spec (i : Z) (l : list Z) : id_in i l = true <-> In i l.
Proof.
  unfold id_in. rewrite existsb_exists. split.
  - intros [j [Hj E]]. apply Z.eqb_eq in E. subst. exact Hj.
  - intros H. exists i. split; [exact H|apply Z.eqb_refl].
Qed.

(** ** Lookups *)

Lemma get_personaje_id (db : DB) (pid : Z) (p : Personaje.t) :
  get_personaje db pid = Some p -> Personaje.id p = pid /\ In p (personajes db).
Proof.
  unfold get_personaje; intros H.
  apply find_some in H. destruct H as [Hin E].
  apply Z.eqb_eq in E. auto.
Qed.

Lemma get_mision_id (db : DB) (mid : Z) (m : Mision.t) :
  get_mision db mid = Some m -> Mision.id m = mid /\ In m (misiones db).
Proof.
  unfold get_mision; intros H.
  apply find_some in H. destruct H as [Hin E].
  apply Z.eqb_eq in E. auto.
Qed.

Lemma find_app_some {A : Type} (f : A -> bool) (l l' : list A) (x : A) :
  find f l = Some x -> find f (l ++ l') = Some x.
Proof.
  induction l as [|y l IH]; cbn; [discriminate|].
  destruct (f y); auto.
Qed.

Lemma get_personaje_update (db : DB) (p : Personaje.t) (x : Z) :
  get_personaje (update_personaje db p) x =
  if x =? Personaje.id p
  then option_map (fun _ => p) (get_personaje db x)
  else get_personaje db x.
Proof.
  unfold get_personaje, update_personaje; cbn.
  induction (personajes db) as [|q l IH]; cbn.
  - destruct (x =? Personaje.id p); reflexivity.
  - destruct (Z.eqb_spec (Personaje.id q) (Personaje.id p)) as [E|E];
      destruct (Z.eqb_spec x (Personaje.id p)) as [E1|E1];
      destruct (Z.eqb_spec (Personaje.id q) x) as [E2|E2];
      destruct (Z.eqb_spec (Personaje.id p) x) as [E3|E3];
      cbn; try congruence; try reflexivity;
      rewrite IH;
      destruct (Z.eqb_spec x (Personaje.id p)); congruence.
Qed.

Lemma update_personaje_twice (db : DB) (p1 p2 : Personaje.t) :
  Personaje.id p1 = Personaje.id p2 ->
  personajes (update_personaje (update_personaje db p1) p2) =
  personajes (update_personaje db p2).
Proof.
  intros E; cbn. rewrite map_map. apply map_ext. intros q.
  rewrite E.
  destruct (Z.eqb_spec (Personaje.id q) (Personaje.id p2)) as [E1|E1].
  - rewrite E, Z.eqb_refl. reflexivity.
  - destruct (Z.eqb_spec (Personaje.id q) (Personaje.id p2)); [contradiction|].
    reflexivity.
Qed.

Lemma Forall_update_personaje (P : Personaje.t -> Prop) (db : DB) (p : Personaje.t) :
  Forall P (personajes db) -> P p -> Forall P (personajes (update_personaje db p)).
Proof.
  intros H Hp; cbn. rewrite Forall_map.
  eapply Forall_impl; [|exact H].
  intros q Hq; cbn. destruct (Personaje.id q =? Personaje.id p); assumption.
Qed.

Lemma order_by_orden_nil (l : list Pendiente.t) : order_by_orden l = [] -> l = [].
Proof.
  destruct l as [|r l]; cbn; [reflexivity|].
  destruct (order_by_orden l) as [|x l']; cbn; [discriminate|].
  destruct (Pendiente.orden r <=? Pendiente.orden x); discriminate.
Qed.

(** ** The endpoints, case by case *)

Ltac run_endpoint :=
  unfold try_except, bind, query, write, execute, raise, ret; cbn.

Lemma asignar_sin_personaje (db : DB) (pid mid : Z) :
  get_personaje db pid = None ->
  asignar_mision pid mid db =
  (db, inl (error_asignar (HTTPException 404 (Texto "Personaje no encontrado")))).
Proof.
  intros H. unfold asignar_mision. run_endpoint. rewrite H. reflexivity.
Qed.

Lemma asignar_sin_mision (db : DB) (pid mid : Z) (p : Personaje.t) :
  get_personaje db pid = Some p ->
  get_mision db mid = None ->
  asignar_mision pid mid db =
  (db, inl (error_asignar (HTTPException 404 (Texto "Misión no encontrada")))).
Proof.
  intros H H'. unfold asignar_mision. run_endpoint. rewrite H, H'. reflexivity.
Qed.

Lemma asignar_activa (db : DB) (pid mid : Z) (p : Personaje.t) (m : Mision.t) :
  get_personaje db pid = Some p ->
  get_mision db mid = Some m ->
  truthy (Personaje.mision_activa_id p) = false ->
  asignar_mision pid mid db =
  (update_personaje db (set_mision_activa_id p (Some mid)),
   inr {| as_mensaje := "Misión asignada correctamente";
          as_mision_activa := true;
          as_en_cola := false |}).
Proof.
  intros H H' Ht. unfold asignar_mision. run_endpoint.
  rewrite H, H', Ht. cbn. rewrite Z.eqb_refl. reflexivity.
Qed.

Lemma asignar_repetida (db : DB) (pid mid : Z) (p : Personaje.t) (m : Mision.t) :
  get_personaje db pid = Some p ->
  get_mision db mid = Some m ->
  truthy (Personaje.mision_activa_id p) = true ->
  existsb (pk_pendiente pid mid) (personaje_misiones_pendientes db) = true ->
  asignar_mision pid mid db =
  (db, inl (error_asignar (IntegrityError "personaje_misiones_pendientes"))).
Proof.
  intros H H' Ht Hpk. unfold asignar_mision. run_endpoint.
  rewrite H, H', Ht. cbn. unfold insert_pendiente. rewrite Hpk. reflexivity.
Qed.

Lemma asignar_en_cola (db : DB) (pid mid : Z) (p : Personaje.t) (m : Mision.t) :
  get_personaje db pid = Some p ->
  get_mision db mid = Some m ->
  truthy (Personaje.mision_activa_id p) = true ->
  existsb (pk_pendiente pid mid) (personaje_misiones_pendientes db) = false ->
  asignar_mision pid mid db =
  ({| personajes := personajes db;
      misiones := misiones db;
      personaje_misiones_completadas := personaje_misiones_completadas db;
      personaje_misiones_pendientes :=
        personaje_misiones_pendientes db ++
        [ {| Pendiente.personaje_id := pid;
             Pendiente.mision_id := mid;
             Pendiente.orden := py_or (select_max_orden db pid) 0 + 1 |} ] |},
   inr {| as_mensaje := "Misión asignada correctamente";
          as_mision_activa := activa_eqb (Personaje.mision_activa_id p) mid;
          as_en_cola := negb (activa_eqb (Personaje.mision_activa_id p) mid) |}).
Proof.
  intros H H' Ht Hpk. unfold asignar_mision. run_endpoint.
  rewrite H, H', Ht. cbn. unfold insert_pendiente. rewrite Hpk. reflexivity.
Qed.

Lemma completar_sin_personaje (db : DB) (pid : Z) :
  get_personaje db pid = None ->
  completar_mision pid db =
  (db, inl (error_completar (HTTPException 404 (Texto "Personaje no encontrado")))).
Proof.
  intros H. unfold completar_mision. run_endpoint. rewrite H. reflexivity.
Qed.

Lemma completar_sin_activa (db : DB) (pid : Z) (p : Personaje.t) :
  get_personaje db pid = Some p ->
  truthy (Personaje.mision_activa_id p) = false ->
  completar_mision pid db =
  (db, inl (error_completar
              (HTTPException 400 (Texto "El personaje no tiene misión activa")))).
Proof.
  intros H Ht. unfold completar_mision. run_endpoint. rewrite H, Ht. reflexivity.
Qed.

Lemma completar_activa_perdida (db : DB) (pid a : Z) (p : Personaje.t) :
  get_personaje db pid = Some p ->
  Personaje.mision_activa_id p = Some a -> a <> 0 ->
  get_mision db a = None ->
  completar_mision pid db =
  (db, inl (error_completar
              (HTTPException 404 (Texto "Misión activa no encontrada")))).
Proof.
  intros H Ha Hnz Hm. unfold completar_mision. run_endpoint.
  rewrite H, Ha. cbn.
  destruct (Z.eqb_spec a 0); [contradiction|]. cbn.
  rewrite Hm. reflexivity.
Qed.

Lemma completar_ya_completada (db : DB) (pid a : Z) (p : Personaje.t) (m : Mision.t) :
  get_personaje db pid = Some p ->
  Personaje.mision_activa_id p = Some a -> a <> 0 ->
  get_mision db a = Some m ->
  existsb (pk_completada pid a) (personaje_misiones_completadas db) = true ->
  completar_mision pid db =
  (db, inl (error_completar (IntegrityError "personaje_misiones_completadas"))).
Proof.
  intros H Ha Hnz Hm Hpk. unfold completar_mision. run_endpoint.
  rewrite H, Ha. cbn.
  destruct (Z.eqb_spec a 0); [contradiction|]. cbn.
  rewrite Hm. unfold insert_completada; cbn. rewrite Hpk. reflexivity.
Qed.

Lemma completar_desborda (db : DB) (pid a : Z) (p : Personaje.t) (m : Mision.t) :
  get_personaje db pid = Some p ->
  Personaje.mision_activa_id p = Some a -> a <> 0 ->
  get_mision db a = Some m ->
  existsb (pk_completada pid a) (personaje_misiones_completadas db) = false ->
  en_rango (Personaje.xp p + Mision.xp m) = false ->
  completar_mision pid db = (db, inl (error_completar OverflowError)).
Proof.
  intros H Ha Hnz Hm Hpk Hr. unfold completar_mision. run_endpoint.
  rewrite H, Ha. cbn.
  destruct (Z.eqb_spec a 0); [contradiction|]. cbn.
  rewrite Hm. unfold insert_completada; cbn. rewrite Hpk.
  destruct (select_siguiente db pid) as [s|]; cbn;
    unfold commit_personaje; cbn; rewrite Hr; reflexivity.
Qed.

Lemma completar_ok (db : DB) (pid a : Z) (p : Personaje.t) (m : Mision.t) :
  get_personaje db pid = Some p ->
  Personaje.mision_activa_id p = Some a -> a <> 0 ->
  get_mision db a = Some m ->
  existsb (pk_completada pid a) (personaje_misiones_completadas db) = false ->
  en_rango (Personaje.xp p + Mision.xp m) = true ->
  exists db',
    completar_mision pid db =
    (db', inr {| co_mensaje := "Misión completada exitosamente";
                 co_xp_ganada := Mision.xp m;
                 co_xp_total := Personaje.xp p + Mision.xp m |}) /\
    personajes db' =
      personajes
        (update_personaje db
           {| Personaje.id := Personaje.id p;
              Personaje.nombre := Personaje.nombre p;
              Personaje.xp := Personaje.xp p + Mision.xp m;
              Personaje.mision_activa_id := select_siguiente db pid |}) /\
    misiones db' = misiones db /\
    personaje_misiones_completadas db' =
      personaje_misiones_completadas db ++
      [ {| Completada.personaje_id := pid; Completada.mision_id := a |} ] /\
    personaje_misiones_pendientes db' =
      match select_siguiente db pid with
      | Some s => filter (fun r => negb (pk_pendiente pid s r))
                         (personaje_misiones_pendientes db)
      | None => personaje_misiones_pendientes db
      end.
Proof.
  intros H Ha Hnz Hm Hpk Hr. unfold completar_mision. run_endpoint.
  rewrite H, Ha. cbn.
  destruct (Z.eqb_spec a 0); [contradiction|]. cbn.
  rewrite Hm. unfold insert_completada; cbn. rewrite Hpk.
  destruct (select_siguiente db pid) as [s|] eqn:Es; cbn;
    unfold commit_personaje; cbn; rewrite Hr;
    (eexists; split; [reflexivity|]; cbn; repeat split).
Qed.

(** ** Reads leave the store as it is *)

Lemma listar_misiones_disponibles_db (db : DB) (pid : Z) :
  fst (listar_misiones_disponibles pid db) = db.
Proof.
  unfold listar_misiones_disponibles. run_endpoint.
  destruct (get_personaje db pid); reflexivity.
Qed.

Lemma listar_misiones_personaje_db (db : DB) (pid : Z) :
  fst (listar_misiones_personaje pid db) = db.
Proof.
  unfold listar_misiones_personaje. run_endpoint.
  destruct (get_personaje db pid) as [p|]; [|reflexivity].
  destruct (truthy (Personaje.mision_activa_id p)); cbn; [|reflexivity].
  destruct (get_mision db _); reflexivity.
Qed.

(** ** The invariant holds in every reachable store *)

Lemma personaje_ok_misiones (db db' : DB) (p : Personaje.t) :
  (forall a m, get_mision db a = Some m -> exists m', get_mision db' a = Some m') ->
  personaje_ok db p -> personaje_ok db' p.
Proof.
  intros Hm [Hx Ha]. split; [exact Hx|].
  intros a E. destruct (Ha a E) as [m Hg]. eauto.
Qed.

Lemma pendiente_ok_ext (db db' : DB) (r : Pendiente.t) :
  (forall a m, get_mision db a = Some m -> exists m', get_mision db' a = Some m') ->
  (forall p, get_personaje db (Pendiente.personaje_id r) = Some p ->
             truthy (Personaje.mision_activa_id p) = true ->
             exists p', get_personaje db' (Pendiente.personaje_id r) = Some p' /\
                        truthy (Personaje.mision_activa_id p') = true) ->
  pendiente_ok db r -> pendiente_ok db' r.
Proof.
  intros Hm Hp [[m Hg] [p [Hq Ht]]]. split; eauto.
Qed.

Lemma Inv_empty : Inv empty_db.
Proof.
  constructor; cbn; constructor.
Qed.

Lemma crear_personaje_inv (db : DB) (nombre : option str) :
  Inv db -> Inv (fst (crear_personaje nombre db)).
Proof.
  intros I. unfold crear_personaje. run_endpoint.
  destruct nombre as [[|c n]|]; cbn; try exact I.
  destruct (first_personaje_nombre db (c :: n)); cbn; [exact I|].
  destruct I as [Im Ip Iq Ik Ic Io].
  constructor; cbn; try assumption.
  - apply Forall_app; split.
    + eapply Forall_impl; [|exact Ip].
      intros p. apply personaje_ok_misiones. eauto.
    + constructor; [|constructor].
      split; cbn; [lia|discriminate].
  - eapply Forall_impl; [|exact Iq].
    intros r. apply pendiente_ok_ext; [eauto|].
    intros p Hp Ht. exists p. split; [|exact Ht].
    unfold get_personaje in *; cbn. apply find_app_some. exact Hp.
Qed.

Lemma crear_mision_inv (db : DB) (titulo : str) (xp : Z) :
  Inv db -> Inv (fst (crear_mision titulo xp db)).
Proof.
  intros I. unfold crear_mision, validar_crear_mision.
  destruct (Z.ltb_spec (len titulo) 3) as [Hl|Hl]; cbn; [exact I|].
  destruct (Z.leb_spec xp 0) as [Hx|Hx]; cbn; [exact I|].
  run_endpoint.
  destruct (first_mision_titulo db titulo); cbn; [exact I|].
  unfold add_mision.
  destruct (en_rango xp); cbn; [|exact I].
  destruct (existsb _ (misiones db)); cbn; [exact I|].
  assert (Hext : forall a m, get_mision db a = Some m ->
            exists m', find (fun m0 => Mision.id m0 =? a)
                         (misiones db ++
                          [{| Mision.id := next_rowid (List.map Mision.id (misiones db));
                              Mision.titulo := titulo; Mision.xp := xp |}]) = Some m').
  { intros a m Hm. exists m. apply find_app_some. exact Hm. }
  destruct I as [Im Ip Iq Ik Ic Io].
  constructor; cbn; try assumption.
  - apply Forall_app; split; [exact Im|].
    constructor; [|constructor].
    repeat split; cbn; try lia.
    apply next_rowid_positive. rewrite Forall_map.
    eapply Forall_impl; [|exact Im]. intros m [H _]. exact H.
  - eapply Forall_impl; [|exact Ip].
    intros p. apply personaje_ok_misiones. exact Hext.
  - eapply Forall_impl; [|exact Iq].
    intros r. apply pendiente_ok_ext; [exact Hext|]. eauto.
Qed.

Lemma NoDup_snoc {A : Type} (l : list A) (x : A) :
  NoDup l -> ~ In x l -> NoDup (l ++ [x]).
Proof.
  induction l as [|y l IH]; cbn; intros Hn Hx.
  - constructor; [intros []|constructor].
  - inversion Hn; subst. constructor.
    + rewrite in_app_iff. cbn. intros [H|[H|[]]]; [contradiction|].
      apply Hx. left. symmetry. exact H.
    + apply IH; [assumption|]. intros H. apply Hx. right. exact H.
Qed.

Lemma NoDup_map_filter {A B : Type} (k : A -> B) (f : A -> bool) (l : list A) :
  NoDup (List.map k l) -> NoDup (List.map k (filter f l)).
Proof.
  induction l as [|x l IH]; cbn; intros H; [constructor|].
  inversion H as [|? ? Hx Hn]; subst.
  destruct (f x); cbn; [|auto].
  constructor; [|auto].
  intros Hin. apply Hx. rewrite in_map_iff in *.
  destruct Hin as [y [E Hy]]. exists y. split; [exact E|].
  apply filter_In in Hy. tauto.
Qed.

Lemma pk_pendiente_fresh (pid mid : Z) (l : list Pendiente.t) :
  existsb (pk_pendiente pid mid) l = false ->
  ~ In (pid, mid)
       (List.map (fun r => (Pendiente.personaje_id r, Pendiente.mision_id r)) l).
Proof.
  intros H Hin. rewrite in_map_iff in Hin. destruct Hin as [r [E Hr]].
  injection E as E1 E2.
  assert (Ht : existsb (pk_pendiente pid mid) l = true).
  { apply existsb_exists. exists r. split; [exact Hr|].
    unfold pk_pendiente. rewrite E1, E2, !Z.eqb_refl. reflexivity. }
  congruence.
Qed.

Lemma pk_completada_fresh (pid mid : Z) (l : list Completada.t) :
  existsb (pk_completada pid mid) l = false ->
  ~ In (pid, mid)
       (List.map (fun r => (Completada.personaje_id r, Completada.mision_id r)) l).
Proof.
  intros H Hin. rewrite in_map_iff in Hin. destruct Hin as [r [E Hr]].
  injection E as E1 E2.
  assert (Ht : existsb (pk_completada pid mid) l = true).
  { apply existsb_exists. exists r. split; [exact Hr|].
    unfold pk_completada. rewrite E1, E2, !Z.eqb_refl. reflexivity. }
  congruence.
Qed.

Lemma mision_en_catalogo_positiva (db : DB) (mid : Z) (m : Mision.t) :
  Inv db -> get_mision db mid = Some m -> 0 < mid /\ 0 < Mision.xp m.
Proof.
  intros I H. apply get_mision_id in H. destruct H as [E Hin].
  pose proof (inv_misiones db I) as Im. rewrite Forall_forall in Im.
  destruct (Im m Hin) as [H1 [H2 _]]. subst. auto.
Qed.

Lemma personaje_en_tabla_ok (db : DB) (pid : Z) (p : Personaje.t) :
  Inv db -> get_personaje db pid = Some p -> personaje_ok db p.
Proof.
  intros I H. apply get_personaje_id in H. destruct H as [_ Hin].
  pose proof (inv_personajes db I) as Ip. rewrite Forall_forall in Ip. auto.
Qed.

Lemma asignar_mision_inv (db : DB) (pid mid : Z) :
  Inv db -> Inv (fst (asignar_mision pid mid db)).
Proof.
  intros I.
  destruct (get_personaje db pid) as [p|] eqn:Hp;
    [|rewrite asignar_sin_personaje by assumption; exact I].
  destruct (get_mision db mid) as [m|] eqn:Hm;
    [|rewrite (asignar_sin_mision db pid mid p) by assumption; exact I].
  destruct (mision_en_catalogo_positiva db mid m I Hm) as [Hmid _].
  pose proof (personaje_en_tabla_ok db pid p I Hp) as [Hxp Hact].
  destruct (get_personaje_id db pid p Hp) as [Hid _].
  destruct (truthy (Personaje.mision_activa_id p)) eqn:Ht.
  - destruct (existsb (pk_pendiente pid mid) (personaje_misiones_pendientes db)) eqn:Hk.
    + rewrite (asignar_repetida db pid mid p m) by assumption. exact I.
    + rewrite (asignar_en_cola db pid mid p m) by assumption.
      destruct I as [Im Ip Iq Ik Ic Io].
      constructor; cbn; try assumption.
      * apply Forall_app; split.
        -- eapply Forall_impl; [|exact Iq].
           intros r. apply pendiente_ok_ext; eauto.
        -- constructor; [|constructor].
           split; cbn; eauto.
      * rewrite map_app. cbn. apply NoDup_snoc; [exact Ik|].
        apply pk_pendiente_fresh. exact Hk.
      * intros pid'. unfold pendientes_de; cbn.
        rewrite filter_app, map_app. cbn.
        destruct (Z.eqb_spec pid pid') as [E|E]; cbn.
        -- subst pid'. apply StronglySorted_snoc; [apply Io|].
           apply py_or_max_upper.
        -- rewrite app_nil_r. apply Io.
  - rewrite (asignar_activa db pid mid p m) by assumption.
    destruct I as [Im Ip Iq Ik Ic Io].
    constructor; try assumption.
    + apply Forall_update_personaje.
      * eapply Forall_impl; [|exact Ip].
        intros q. apply personaje_ok_misiones. eauto.
      * split; cbn; [exact Hxp|].
        intros a E. injection E as <-. eauto.
    + cbn. eapply Forall_impl; [|exact Iq].
      intros r. apply pendiente_ok_ext; [eauto|].
      intros p0 Hp0 Ht0. rewrite get_personaje_update. cbn.
      destruct (Pendiente.personaje_id r =? Personaje.id p).
      * rewrite Hp0. cbn. eexists. split; [reflexivity|]. cbn.
        destruct (Z.eqb_spec mid 0); [lia|reflexivity].
      * eauto.
Qed.

Lemma insertar_por_orden_In (r x : Pendiente.t) (l : list Pendiente.t) :
  In x (insertar_por_orden r l) <-> x = r \/ In x l.
Proof.
  induction l as [|y l IH]; cbn.
  - intuition congruence.
  - destruct (Pendiente.orden r <=? Pendiente.orden y); cbn.
    + intuition congruence.
    + rewrite IH. intuition congruence.
Qed.

Lemma order_by_orden_In (x : Pendiente.t) (l : list Pendiente.t) :
  In x (order_by_orden l) <-> In x l.
Proof.
  induction l as [|y l IH]; cbn; [tauto|].
  rewrite insertar_por_orden_In, IH. intuition congruence.
Qed.

Lemma select_siguiente_In (db : DB) (pid s : Z) :
  select_siguiente db pid = Some s ->
  exists r, In r (personaje_misiones_pendientes db) /\
            Pendiente.personaje_id r = pid /\ Pendiente.mision_id r = s.
Proof.
  unfold select_siguiente.
  destruct (order_by_orden (pendientes_de db pid)) as [|r l] eqn:E; [discriminate|].
  intros H; injection H as <-.
  assert (Hin : In r (pendientes_de db pid)).
  { apply order_by_orden_In. rewrite E. left. reflexivity. }
  apply filter_In in Hin. destruct Hin as [Hin Hq].
  apply Z.eqb_eq in Hq. eauto.
Qed.

Lemma select_siguiente_none (db : DB) (pid : Z) :
  select_siguiente db pid = None -> pendientes_de db pid = [].
Proof.
  unfold select_siguiente.
  destruct (order_by_orden (pendientes_de db pid)) as [|r l] eqn:E; [|discriminate].
  intros _. apply order_by_orden_nil. exact E.
Qed.

Lemma filter_filter_comm {A : Type} (f g : A -> bool) (l : list A) :
  filter g (filter f l) = filter f (filter g l).
Proof.
  induction l as [|x l IH]; cbn; [reflexivity|].
  destruct (f x) eqn:Ef, (g x) eqn:Eg; cbn; rewrite ?Ef, ?Eg, IH; reflexivity.
Qed.

Lemma truthy_some (o : option Z) :
  truthy o = true -> exists a, o = Some a /\ a <> 0.
Proof.
  destruct o as [a|]; cbn; [|discriminate].
  destruct (Z.eqb_spec a 0); [discriminate|]. eauto.
Qed.

Lemma completar_mision_inv (db : DB) (pid : Z) :
  Inv db -> Inv (fst (completar_mision pid db)).
Proof.
  intros I.
  destruct (get_personaje db pid) as [p|] eqn:Hp;
    [|rewrite completar_sin_personaje by assumption; exact I].
  destruct (truthy (Personaje.mision_activa_id p)) eqn:Ht;
    [|rewrite (completar_sin_activa db pid p) by assumption; exact I].
  destruct (truthy_some _ Ht) as [a [Ha Hnz]].
  destruct (get_mision db a) as [m|] eqn:Hm;
    [|rewrite (completar_activa_perdida db pid a p) by assumption; exact I].
  destruct (existsb (pk_completada pid a) (personaje_misiones_completadas db)) eqn:Hk;
    [rewrite (completar_ya_completada db pid a p m) by assumption; exact I|].
  destruct (en_rango (Personaje.xp p + Mision.xp m)) eqn:Hrg;
    [|rewrite (completar_desborda db pid a p m) by assumption;
      exact I].
  destruct (completar_ok db pid a p m Hp Ha Hnz Hm Hk Hrg)
    as [db' [-> [Hper [Hmis [Hcom Hpen]]]]]. cbn.
  destruct (mision_en_catalogo_positiva db a m I Hm) as [_ Hxm].
  pose proof (personaje_en_tabla_ok db pid p I Hp) as [Hxp _].
  destruct (get_personaje_id db pid p Hp) as [Hid _].
  assert (Hgm : forall x, get_mision db' x = get_mision db x).
  { intros x. unfold get_mision. rewrite Hmis. reflexivity. }
  assert (Hsig : forall s, select_siguiente db pid = Some s ->
                           0 < s /\ exists m', get_mision db s = Some m').
  { intros s Hs. destruct (select_siguiente_In db pid s Hs) as [r [Hr [_ E]]].
    pose proof (inv_pendientes db I) as Iq. rewrite Forall_forall in Iq.
    destruct (Iq r Hr) as [[m' Hm'] _]. rewrite E in Hm'.
    split; [|eauto].
    apply (mision_en_catalogo_positiva db s m' I Hm'). }
  set (pf := {| Personaje.id := Personaje.id p;
                Personaje.nombre := Personaje.nombre p;
                Personaje.xp := Personaje.xp p + Mision.xp m;
                Personaje.mision_activa_id := select_siguiente db pid |}) in *.
  assert (Hgp : forall x, get_personaje db' x = get_personaje (update_personaje db pf) x).
  { intros x. unfold get_personaje. rewrite Hper. reflexivity. }
  assert (Hrow : forall r, In r (personaje_misiones_pendientes db') ->
                           In r (personaje_misiones_pendientes db)).
  { intros r. rewrite Hpen. destruct (select_siguiente db pid); [|tauto].
    intros H. apply filter_In in H. tauto. }
  destruct I as [Im Ip Iq Ik Ic Io].
  constructor.
  - rewrite Hmis. exact Im.
  - rewrite Hper. apply Forall_update_personaje.
    + eapply Forall_impl; [|exact Ip].
      intros q. apply personaje_ok_misiones.
      intros x m' Hx. rewrite Hgm. eauto.
    + split; cbn; [lia|].
      intros s Hs. rewrite Hgm. apply Hsig. exact Hs.
  - rewrite Forall_forall in *. intros r Hr.
    pose proof (Iq r (Hrow r Hr)) as Hok.
    revert Hok. apply pendiente_ok_ext.
    + intros x m' Hx. rewrite Hgm. eauto.
    + intros p0 Hp0 Ht0. rewrite Hgp, get_personaje_update. cbn.
      destruct (Z.eqb_spec (Pendiente.personaje_id r) (Personaje.id p)) as [E|E];
        [|eauto].
      rewrite Hp0. cbn. exists pf. split; [reflexivity|]. cbn.
      destruct (select_siguiente db pid) as [s|] eqn:Es.
      * destruct (Hsig s eq_refl) as [Hs _]. cbn.
        destruct (Z.eqb_spec s 0); [lia|reflexivity].
      * exfalso. apply select_siguiente_none in Es.
        assert (Hin : In r (pendientes_de db pid)).
        { apply filter_In. split; [apply Hrow; exact Hr|].
          apply Z.eqb_eq. congruence. }
        rewrite Es in Hin. exact Hin.
  - rewrite Hpen. destruct (select_siguiente db pid); [|exact Ik].
    apply NoDup_map_filter. exact Ik.
  - rewrite Hcom, map_app. cbn. apply NoDup_snoc; [exact Ic|].
    apply pk_completada_fresh. exact Hk.
  - intros pid'. unfold pendientes_de. rewrite Hpen.
    destruct (select_siguiente db pid); [|apply Io].
    rewrite filter_filter_comm. apply StronglySorted_filter_map. apply Io.
Qed.

Lemma handle_inv (r : Request) (db : DB) : Inv db -> Inv (handle r db).
Proof.
  intros I. destruct r; cbn.
  - apply crear_personaje_inv. exact I.
  - apply crear_mision_inv. exact I.
  - rewrite listar_misiones_personaje_db. exact I.
  - rewrite listar_misiones_disponibles_db. exact I.
  - apply asignar_mision_inv. exact I.
  - apply completar_mision_inv. exact I.
Qed.

Lemma reachable_inv (db : DB) : reachable db -> Inv db.
Proof.
  induction 1 as [|r db _ IH]; [apply Inv_empty|].
  apply handle_inv. exact IH.
Qed.

Lemma reachable_run (rs : list Request) (db : DB) :
  reachable db -> reachable (run rs db).
Proof.
  revert db; induction rs as [|r rs IH]; intros db H; cbn; [exact H|].
  apply IH. constructor. exact H.
Qed.

Lemma reachable_db_en_cola : reachable db_en_cola.
Proof.
  unfold db_en_cola, db_activa, db_inicial.
  repeat apply reachable_run. constructor.
Defined.

Lemma reachable_db_variada : reachable db_variada.
Proof.
  unfold db_variada. apply reachable_run. exact reachable_db_en_cola.
Defined.

(** ** The queue of [tda_cola.py] *)

Lemma cola_run_fifo (cs : list ColaMisiones.call) (q : ColaMisiones.t) :
  forallb (fun o => negb (ColaMisiones.raised o))
          (snd (ColaMisiones.run cs q)) = true /\
  ColaMisiones.items q ++ ColaMisiones.enqueued cs =
  ColaMisiones.dequeued cs (snd (ColaMisiones.run cs q)) ++
  ColaMisiones.items (fst (ColaMisiones.run cs q)).
Proof.
  revert q; induction cs as [|c cs IH]; intros q; cbn.
  - rewrite app_nil_r. auto.
  - destruct c as [m| |]; cbn.
    + specialize (IH {| ColaMisiones.items := ColaMisiones.items q ++ [m] |}).
      destruct (ColaMisiones.run cs _) as [q2 rs]; cbn in *.
      destruct IH as [H1 H2]. split; [exact H1|].
      rewrite <- H2, <- app_assoc. reflexivity.
    + unfold ColaMisiones.dequeue, ColaMisiones.is_empty, len.
      destruct q as [[|x rest]]; cbn.
      * specialize (IH {| ColaMisiones.items := [] |}).
        destruct (ColaMisiones.run cs _) as [q2 rs]; cbn in *. exact IH.
      * specialize (IH {| ColaMisiones.items := rest |}).
        destruct (ColaMisiones.run cs _) as [q2 rs]; cbn in *.
        destruct IH as [H1 H2]. split; [exact H1|].
        rewrite H2. reflexivity.
    + unfold ColaMisiones.first, ColaMisiones.is_empty, len.
      destruct q as [[|x rest]]; cbn.
      * specialize (IH {| ColaMisiones.items := [] |}).
        destruct (ColaMisiones.run cs _) as [q2 rs]; cbn in *. exact IH.
      * specialize (IH {| ColaMisiones.items := x :: rest |}).
        destruct (ColaMisiones.run cs _) as [q2 rs]; cbn in *. exact IH.
Qed.

(** C10. Over any sequence of [enqueue], [dequeue] and [first] calls on
    a fresh [ColaMisiones], no call raises and the identifiers handed
    out by [dequeue], followed by those still queued, are exactly the
    identifiers enqueued, in enqueue order; [dequeue] on a non-empty
    queue removes and returns its oldest element; on an empty queue
    [dequeue] and [first] return [None] and leave it empty. *)
Theorem cola_misiones_fifo :
  (forall cs : list ColaMisiones.call,
     forallb (fun o => negb (ColaMisiones.raised o))
             (snd (ColaMisiones.run cs ColaMisiones.init)) = true /\
     ColaMisiones.enqueued cs =
     ColaMisiones.dequeued cs (snd (ColaMisiones.run cs ColaMisiones.init)) ++
     ColaMisiones.items (fst (ColaMisiones.run cs ColaMisiones.init))) /\
  (forall (x : Z) (rest : list Z),
     ColaMisiones.dequeue {| ColaMisiones.items := x :: rest |} =
     ({| ColaMisiones.items := rest |}, inr (Some x)) /\
     ColaMisiones.first {| ColaMisiones.items := x :: rest |} =
     ({| ColaMisiones.items := x :: rest |}, inr (Some x))) /\
  ColaMisiones.dequeue {| ColaMisiones.items := [] |} =
  ({| ColaMisiones.items := [] |}, inr None) /\
  ColaMisiones.first {| ColaMisiones.items := [] |} =
  ({| ColaMisiones.items := [] |}, inr None).
Proof.
  split; [|split; [|split]].
  - intros cs. apply (cola_run_fifo cs ColaMisiones.init).
  - intros x rest. split; reflexivity.
  - reflexivity.
  - reflexivity.
Qed.

(** ** Completing without an active quest *)

(** C6. For a character whose active quest is absent, [completar_mision]
    fails with the no-active-quest error (raised with status 400 and
    re-raised by the handler with status 500) and the store, hence the
    character's experience, pending queue, completed set and active
    quest, is left as it was. *)
Theorem completar_sin_mision_activa (db : DB) (pid : Z) (p : Personaje.t) :
  get_personaje db pid = Some p ->
  active_quest db pid = None ->
  completar_mision pid db =
    (db, inl (HTTPException 500
                (Envuelto "Error completando misión: "
                   (HTTPException 400
                      (Texto "El personaje no tiene misión activa"))))) /\
  xp_total (fst (completar_mision pid db)) pid = xp_total db pid /\
  pending_queue (fst (completar_mision pid db)) pid = pending_queue db pid /\
  completed_set (fst (completar_mision pid db)) pid = completed_set db pid /\
  active_quest (fst (completar_mision pid db)) pid = None.
Proof.
  intros Hp Ha.
  assert (E : completar_mision pid db =
    (db, inl (error_completar
                (HTTPException 400 (Texto "El personaje no tiene misión activa"))))).
  { apply (completar_sin_activa db pid p Hp).
    unfold active_quest in Ha. rewrite Hp in Ha. rewrite Ha. reflexivity. }
  rewrite E. cbn. auto.
Qed.

Lemma completar_sin_mision_activa_ejemplo :
  get_personaje db_inicial 1 <> None /\
  active_quest db_inicial 1 = None /\
  fst (completar_mision 1 db_inicial) = db_inicial.
Proof.
  split; [discriminate|]. split; [reflexivity|].
  destruct (completar_sin_mision_activa db_inicial 1
    {| Personaje.id := 1; Personaje.nombre := lit "Ana";
       Personaje.xp := 0; Personaje.mision_activa_id := None |}
    eq_refl eq_refl) as [E _].
  rewrite E. reflexivity.
Defined.

(** ** Creating quests *)

Lemma str_eqb_refl (a : str) : str_eqb a a = true.
Proof.
  unfold str_eqb. destruct (list_eq_dec N.eq_dec a a); congruence.
Qed.

Lemma titulo_usado_first (db : DB) (titulo : str) :
  (exists m, In m (misiones db) /\ Mision.titulo m = titulo) ->
  exists m, first_mision_titulo db titulo = Some m.
Proof.
  intros [m [Hin E]]. unfold first_mision_titulo.
  destruct (find _ (misiones db)) as [m'|] eqn:F; [eauto|].
  pose proof (find_none _ _ F m Hin) as Hf. cbn in Hf.
  rewrite E, str_eqb_refl in Hf. discriminate.
Qed.

(** C7, amended. A title already used by a quest of the catalog is
    refused whatever the reward, and the catalog is left as it was: with
    the duplicate-title error when the arguments pass the validation of
    the signature (title of at least 3 characters, reward above 0), with
    the validation error otherwise. A call that succeeds had a title of
    at least 3 characters and a strictly positive reward. *)
Theorem crear_mision_titulo_repetido (db : DB) (titulo : str) (xp : Z) :
  ((exists m, In m (misiones db) /\ Mision.titulo m = titulo) ->
   (exists e, crear_mision titulo xp db = (db, inl e)) /\
   (3 <= len titulo -> 0 < xp ->
    crear_mision titulo xp db =
      (db, inl (HTTPException 400
                  (Envuelto "Error creando misión: "
                     (HTTPException 400
                        (Texto "Ya existe una misión con este título")))))) /\
   (len titulo < 3 \/ xp <= 0 ->
    exists loc, crear_mision titulo xp db = (db, inl (RequestValidationError loc)))) /\
  (forall db' r, crear_mision titulo xp db = (db', inr r) ->
                 3 <= len titulo /\ 0 < xp).
Proof.
  split.
  - intros Hu. apply titulo_usado_first in Hu. destruct Hu as [m Hm].
    unfold crear_mision, validar_crear_mision.
    destruct (Z.ltb_spec (len titulo) 3) as [Hl|Hl];
      destruct (Z.leb_spec xp 0) as [Hx|Hx]; cbn.
    + split; [eauto|]. split; [lia|eauto].
    + split; [eauto|]. split; [lia|eauto].
    + split; [eauto|]. split; [lia|eauto].
    + run_endpoint. rewrite Hm. cbn.
      split; [eauto|]. split; [reflexivity|lia].
  - intros db' r. unfold crear_mision, validar_crear_mision.
    destruct (Z.ltb_spec (len titulo) 3) as [Hl|Hl];
      destruct (Z.leb_spec xp 0) as [Hx|Hx]; cbn; try discriminate.
    intros _. lia.
Qed.

Lemma crear_mision_titulo_repetido_ejemplo :
  (exists m, In m (misiones db_inicial) /\ Mision.titulo m = lit "Tutorial") /\
  exists e, crear_mision (lit "Tutorial") 50 db_inicial = (db_inicial, inl e).
Proof.
  assert (H : exists m, In m (misiones db_inicial) /\ Mision.titulo m = lit "Tutorial").
  { eexists. split; [left; reflexivity|reflexivity]. }
  split; [exact H|].
  exact (proj1 (proj1 (crear_mision_titulo_repetido db_inicial (lit "Tutorial") 50) H)).
Defined.

(** C7, as stated, fails: for the used title "Tutorial" and the reward
    0 the call is refused by the validation of the signature, not with
    the duplicate-title error. *)
Lemma crear_mision_repetida_xp_cero :
  (exists m, In m (misiones db_inicial) /\ Mision.titulo m = lit "Tutorial") /\
  crear_mision (lit "Tutorial") 0 db_inicial =
    (db_inicial, inl (RequestValidationError ["xp"%string])) /\
  crear_mision (lit "Tutorial") 0 db_inicial <>
    (db_inicial,
     inl (HTTPException 400
            (Envuelto "Error creando misión: "
               (HTTPException 400
                  (Texto "Ya existe una misión con este título"))))).
Proof.
  split; [|split].
  - eexists. split; [left; reflexivity|reflexivity].
  - reflexivity.
  - discriminate.
Qed.

(** ** Experience *)

Lemma next_rowid_fresh (ids : list Z) : Forall (fun x => x < next_rowid ids) ids.
Proof.
  unfold next_rowid. destruct (sql_max ids) as [m|] eqn:E.
  - apply sql_max_upper in E. eapply Forall_impl; [|exact E].
    cbn; intros; lia.
  - apply sql_max_none in E. subst. constructor.
Qed.

Lemma get_personaje_nuevo (db : DB) (nombre : str) (xp : Z) :
  get_personaje (snd (add_personaje db nombre xp))
                (Personaje.id (fst (add_personaje db nombre xp))) =
  Some (fst (add_personaje db nombre xp)).
Proof.
  unfold get_personaje, add_personaje; cbn.
  pose proof (next_rowid_fresh (List.map Personaje.id (personajes db))) as H.
  rewrite Forall_map in H.
  revert H. generalize (next_rowid (List.map Personaje.id (personajes db))).
  intros n H.
  induction (personajes db) as [|q l IH]; cbn.
  - rewrite Z.eqb_refl. reflexivity.
  - inversion H; subst.
    destruct (Z.eqb_spec (Personaje.id q) n); [lia|]. auto.
Qed.

Lemma crear_personaje_xp_cero (db db' : DB) (nombre : option str) (c : PersonajeCreado) :
  crear_personaje nombre db = (db', inr c) ->
  pc_xp c = 0 /\ xp_total db' (pc_id c) = Some 0.
Proof.
  unfold crear_personaje. run_endpoint.
  destruct nombre as [[|ch n]|]; cbn; try discriminate.
  destruct (first_personaje_nombre db (ch :: n)); cbn; [discriminate|].
  intros H. injection H as <- <-. cbn. split; [reflexivity|].
  exact (f_equal (option_map Personaje.xp) (get_personaje_nuevo db (ch :: n) 0)).
Qed.

Lemma crear_mision_personajes (db : DB) (titulo : str) (xp : Z) :
  personajes (fst (crear_mision titulo xp db)) = personajes db.
Proof.
  unfold crear_mision.
  destruct (validar_crear_mision titulo xp); [|reflexivity].
  run_endpoint.
  destruct (first_mision_titulo db titulo); cbn; [reflexivity|].
  unfold add_mision. destruct (en_rango xp); cbn; [|reflexivity].
  destruct (existsb _ (misiones db)); reflexivity.
Qed.

Lemma xp_total_handle (db : DB) (r : Request) (pid x : Z) :
  Inv db ->
  xp_total db pid = Some x ->
  exists x', xp_total (handle r db) pid = Some x' /\ x <= x'.
Proof.
  intros I Hx.
  assert (Hsame : forall db', personajes db' = personajes db ->
            exists x', xp_total db' pid = Some x' /\ x <= x').
  { intros db' E. exists x. split; [|lia].
    unfold xp_total, get_personaje in *. rewrite E. exact Hx. }
  destruct r as [nombre|titulo xp|pid'|pid'|pid' mid|pid']; cbn.
  - unfold crear_personaje. run_endpoint.
    destruct nombre as [[|ch n]|]; cbn; try (apply Hsame; reflexivity).
    destruct (first_personaje_nombre db (ch :: n)); cbn;
      [apply Hsame; reflexivity|].
    exists x. split; [|lia].
    unfold xp_total, get_personaje in *; cbn.
    destruct (find _ (personajes db)) as [p|] eqn:F; [|discriminate].
    rewrite (find_app_some _ _ _ _ F). exact Hx.
  - apply Hsame. apply crear_mision_personajes.
  - rewrite listar_misiones_personaje_db. apply Hsame. reflexivity.
  - rewrite listar_misiones_disponibles_db. apply Hsame. reflexivity.
  - destruct (get_personaje db pid') as [p|] eqn:Hp;
      [|rewrite asignar_sin_personaje by assumption; apply Hsame; reflexivity].
    destruct (get_mision db mid) as [m|] eqn:Hm;
      [|rewrite (asignar_sin_mision db pid' mid p) by assumption;
        apply Hsame; reflexivity].
    destruct (truthy (Personaje.mision_activa_id p)) eqn:Ht.
    + destruct (existsb (pk_pendiente pid' mid) (personaje_misiones_pendientes db)) eqn:Hk.
      * rewrite (asignar_repetida db pid' mid p m) by assumption.
        apply Hsame; reflexivity.
      * rewrite (asignar_en_cola db pid' mid p m) by assumption.
        apply Hsame; reflexivity.
    + rewrite (asignar_activa db pid' mid p m) by assumption. cbn.
      exists x. split; [|lia].
      unfold xp_total in *. rewrite get_personaje_update.
      change (Personaje.id (set_mision_activa_id p (Some mid)))
        with (Personaje.id p).
      destruct (get_personaje_id db pid' p Hp) as [Hid _].
      destruct (Z.eqb_spec pid (Personaje.id p)) as [E|E]; [|exact Hx].
      assert (E' : pid = pid') by congruence. rewrite E' in Hx |- *.
      rewrite Hp in Hx |- *. exact Hx.
  - destruct (get_personaje db pid') as [p|] eqn:Hp;
      [|rewrite completar_sin_personaje by assumption; apply Hsame; reflexivity].
    destruct (truthy (Personaje.mision_activa_id p)) eqn:Ht;
      [|rewrite (completar_sin_activa db pid' p) by assumption;
        apply Hsame; reflexivity].
    destruct (truthy_some _ Ht) as [a [Ha Hnz]].
    destruct (get_mision db a) as [m|] eqn:Hm;
      [|rewrite (completar_activa_perdida db pid' a p) by assumption;
        apply Hsame; reflexivity].
    destruct (existsb (pk_completada pid' a) (personaje_misiones_completadas db)) eqn:Hk;
      [rewrite (completar_ya_completada db pid' a p m) by assumption;
       apply Hsame; reflexivity|].
    destruct (en_rango (Personaje.xp p + Mision.xp m)) eqn:Hrg;
      [|rewrite (completar_desborda db pid' a p m) by assumption;
        apply Hsame; reflexivity].
    destruct (completar_ok db pid' a p m Hp Ha Hnz Hm Hk Hrg)
      as [db' [-> [Hper _]]]. cbn.
    destruct (mision_en_catalogo_positiva db a m I Hm) as [_ Hxm].
    destruct (get_personaje_id db pid' p Hp) as [Hid _].
    unfold xp_total in *.
    replace (get_personaje db' pid) with
      (get_personaje
         (update_personaje db
            {| Personaje.id := Personaje.id p;
               Personaje.nombre := Personaje.nombre p;
               Personaje.xp := Personaje.xp p + Mision.xp m;
               Personaje.mision_activa_id := select_siguiente db pid' |}) pid)
      by (unfold get_personaje; rewrite Hper; reflexivity).
    rewrite get_personaje_update. cbn [Personaje.id].
    destruct (Z.eqb_spec pid (Personaje.id p)) as [E|E];
      [|exists x; split; [exact Hx|lia]].
    assert (E' : pid = pid') by congruence. rewrite E' in Hx |- *.
    rewrite Hp in Hx |- *. cbn in Hx |- *. injection Hx as <-.
    eexists. split; [reflexivity|lia].
Qed.

(** C9. In every store the API can produce, the experience of every
    character is non-negative, no request makes it smaller, and a
    character is created with experience zero. *)
Theorem xp_total_no_decrece (db : DB) :
  reachable db ->
  (forall pid x, xp_total db pid = Some x -> 0 <= x) /\
  (forall r pid x,
     xp_total db pid = Some x ->
     exists x', xp_total (handle r db) pid = Some x' /\ x <= x') /\
  (forall nombre db' c,
     crear_personaje nombre db = (db', inr c) ->
     pc_xp c = 0 /\ xp_total db' (pc_id c) = Some 0).
Proof.
  intros R. pose proof (reachable_inv db R) as I.
  split; [|split].
  - intros pid x. unfold xp_total.
    destruct (get_personaje db pid) as [p|] eqn:Hp; cbn; [|discriminate].
    intros H; injection H as <-.
    apply (personaje_en_tabla_ok db pid p I Hp).
  - intros r pid x. apply xp_total_handle. exact I.
  - intros nombre db' c. apply crear_personaje_xp_cero.
Qed.

Lemma xp_total_no_decrece_ejemplo :
  reachable db_en_cola /\
  (forall pid x, xp_total db_en_cola pid = Some x -> 0 <= x) /\
  exists x', xp_total (handle (CompletarMision 1) db_en_cola) 1 = Some x' /\ 0 <= x'.
Proof.
  assert (R : reachable db_en_cola).
  { unfold db_en_cola, db_activa, db_inicial.
    repeat apply reachable_run. constructor. }
  split; [exact R|]. split.
  - exact (proj1 (xp_total_no_decrece db_en_cola R)).
  - exact (proj1 (proj2 (xp_total_no_decrece db_en_cola R))
             (CompletarMision 1) 1 0 eq_refl).
Defined.

(** ** Listing the quests a character can take *)

Lemma id_in_order_by_orden (i : Z) (l : list Pendiente.t) :
  id_in i (List.map Pendiente.mision_id (order_by_orden l)) =
  id_in i (List.map Pendiente.mision_id l).
Proof.
  apply eq_true_iff_eq. rewrite !id_in_spec, !in_map_iff.
  split; intros [r [E H]]; exists r; (split; [exact E|]);
    apply order_by_orden_In; exact H.
Qed.

Lemma activa_eqb_spec (o : option Z) (i : Z) : activa_eqb o i = true <-> o = Some i.
Proof.
  destruct o as [a|]; cbn.
  - rewrite Z.eqb_eq. split; congruence.
  - split; discriminate.
Qed.

Lemma spec_list_available_In (db : DB) (pid : Z) (m : Mision.t) :
  In m (spec_list_available db pid) <->
  In m (misiones db) /\
  active_quest db pid <> Some (Mision.id m) /\
  ~ In (Mision.id m) (pending_queue db pid) /\
  ~ In (Mision.id m) (completed_set db pid).
Proof.
  unfold spec_list_available. rewrite filter_In, !andb_true_iff, !negb_true_iff.
  rewrite <- !not_true_iff_false, activa_eqb_spec, !id_in_spec. tauto.
Qed.

Lemma listar_misiones_disponibles_ok (db : DB) (pid : Z) (p : Personaje.t) :
  get_personaje db pid = Some p ->
  Personaje.mision_activa_id p <> Some 0 ->
  listar_misiones_disponibles pid db =
  (db, inr (List.map mision_json (spec_list_available db pid))).
Proof.
  intros Hp Hz. unfold listar_misiones_disponibles. run_endpoint.
  rewrite Hp. cbn. do 3 f_equal.
  unfold spec_list_available, active_quest, pending_queue, completed_set.
  rewrite Hp. apply filter_ext. intros m.
  rewrite id_in_order_by_orden.
  destruct (Personaje.mision_activa_id p) as [a|]; cbn.
  - destruct (Z.eqb_spec a 0); [congruence|]. cbn.
    destruct (a =? Mision.id m), (id_in _ _), (id_in _ _); reflexivity.
  - destruct (id_in _ _), (id_in _ _); reflexivity.
Qed.

Lemma reachable_activa_positiva (db : DB) (pid a : Z) (p : Personaje.t) :
  Inv db -> get_personaje db pid = Some p ->
  Personaje.mision_activa_id p = Some a -> 0 < a.
Proof.
  intros I Hp Ha.
  destruct (personaje_en_tabla_ok db pid p I Hp) as [_ H].
  destruct (H a Ha) as [m Hm].
  apply (mision_en_catalogo_positiva db a m I Hm).
Qed.







(** ** The backlog as rows *)

Lemma pending_queue_In (db : DB) (pid x : Z) :
  In x (pending_queue db pid) <->
  exists r, In r (personaje_misiones_pendientes db) /\
            Pendiente.personaje_id r = pid /\ Pendiente.mision_id r = x.
Proof.
  unfold pending_queue, pendientes_de. rewrite in_map_iff. split.
  - intros [r [E H]]. apply order_by_orden_In, filter_In in H.
    destruct H as [H Hq]. apply Z.eqb_eq in Hq. eauto.
  - intros [r [H [Hq E]]]. exists r. split; [exact E|].
    apply order_by_orden_In, filter_In. split; [exact H|].
    apply Z.eqb_eq. exact Hq.
Qed.

Lemma completed_set_In (db : DB) (pid x : Z) :
  In x (completed_set db pid) <->
  exists r, In r (personaje_misiones_completadas db) /\
            Completada.personaje_id r = pid /\ Completada.mision_id r = x.
Proof.
  unfold completed_set, completadas_de. rewrite in_map_iff. split.
  - intros [r [E H]]. apply filter_In in H.
    destruct H as [H Hq]. apply Z.eqb_eq in Hq. eauto.
  - intros [r [H [Hq E]]]. exists r. split; [exact E|].
    apply filter_In. split; [exact H|]. apply Z.eqb_eq. exact Hq.
Qed.

Lemma pk_pendiente_In (db : DB) (pid mid : Z) :
  existsb (pk_pendiente pid mid) (personaje_misiones_pendientes db) = true <->
  In mid (pending_queue db pid).
Proof.
  rewrite existsb_exists, pending_queue_In. unfold pk_pendiente.
  split; intros [r [H Hk]]; exists r; (split; [exact H|]).
  - apply andb_true_iff in Hk. rewrite !Z.eqb_eq in Hk. exact Hk.
  - apply andb_true_iff. rewrite !Z.eqb_eq. exact Hk.
Qed.

Lemma pk_completada_In (db : DB) (pid mid : Z) :
  existsb (pk_completada pid mid) (personaje_misiones_completadas db) = true <->
  In mid (completed_set db pid).
Proof.
  rewrite existsb_exists, completed_set_In. unfold pk_completada.
  split; intros [r [H Hk]]; exists r; (split; [exact H|]).
  - apply andb_true_iff in Hk. rewrite !Z.eqb_eq in Hk. exact Hk.
  - apply andb_true_iff. rewrite !Z.eqb_eq. exact Hk.
Qed.

Lemma pending_queue_rows (db : DB) (pid : Z) :
  Inv db ->
  pending_queue db pid = List.map Pendiente.mision_id (pendientes_de db pid).
Proof.
  intros I. unfold pending_queue.
  rewrite order_by_orden_sorted; [reflexivity|]. apply (inv_orden db I).
Qed.

(** ** Assigning a quest *)




(** C5, amended. In every store the API can produce, for an existing
    character and a catalog quest that is not already in the character's
    pending queue, [asignar_mision] succeeds: with no active quest the
    quest becomes the active quest, the queue is untouched and the
    answer says active; with an active quest that quest stays active,
    the new quest is appended to the tail of the queue, and the answer
    says queued when the new quest differs from the active one. *)
Theorem asignar_mision_activa_o_cola
  (db : DB) (pid mid : Z) (p : Personaje.t) (m : Mision.t) :
  reachable db ->
  get_personaje db pid = Some p ->
  get_mision db mid = Some m ->
  ~ In mid (pending_queue db pid) ->
  exists db' res,
    asignar_mision pid mid db = (db', inr res) /\
    match Personaje.mision_activa_id p with
    | None =>
        active_quest db' pid = Some mid /\
        pending_queue db' pid = pending_queue db pid /\
        as_mision_activa res = true /\ as_en_cola res = false
    | Some a =>
        active_quest db' pid = Some a /\
        pending_queue db' pid = pending_queue db pid ++ [mid] /\
        (a <> mid -> as_mision_activa res = false /\ as_en_cola res = true)
    end.
Proof.
  intros R Hp Hm Hn. pose proof (reachable_inv db R) as I.
  destruct (get_personaje_id db pid p Hp) as [Hid _].
  destruct (Personaje.mision_activa_id p) as [a|] eqn:Ha.
  - pose proof (reachable_activa_positiva db pid a p I Hp Ha) as Hpos.
    assert (Ht : truthy (Personaje.mision_activa_id p) = true).
    { rewrite Ha. cbn. destruct (Z.eqb_spec a 0); [lia|reflexivity]. }
    assert (Hk : existsb (pk_pendiente pid mid) (personaje_misiones_pendientes db) = false).
    { apply not_true_is_false. intros Hk. apply Hn, pk_pendiente_In. exact Hk. }
    pose proof (asignar_mision_inv db pid mid I) as I'.
    rewrite (asignar_en_cola db pid mid p m Hp Hm Ht Hk) in *.
    cbn [fst] in I'. do 2 eexists. split; [reflexivity|].
    split; [|split].
    + unfold active_quest, get_personaje in *; cbn. rewrite Hp. exact Ha.
    + rewrite (pending_queue_rows _ pid I'), (pending_queue_rows db pid I).
      unfold pendientes_de; cbn. rewrite filter_app, map_app. cbn.
      rewrite Z.eqb_refl. reflexivity.
    + intros Hd. rewrite Ha. cbn.
      destruct (Z.eqb_spec a mid); [contradiction|]. auto.
  - assert (Ht : truthy (Personaje.mision_activa_id p) = false)
      by (rewrite Ha; reflexivity).
    rewrite (asignar_activa db pid mid p m Hp Hm Ht).
    do 2 eexists. split; [reflexivity|]. cbn.
    split; [|auto].
    unfold active_quest. rewrite get_personaje_update. cbn.
    rewrite Hid, Z.eqb_refl, Hp. reflexivity.
Qed.

Lemma asignar_mision_activa_o_cola_ejemplo :
  reachable db_activa /\
  ~ In 2 (pending_queue db_activa 1) /\
  exists db' res,
    asignar_mision 1 2 db_activa = (db', inr res) /\
    active_quest db' 1 = Some 1 /\
    pending_queue db' 1 = pending_queue db_activa 1 ++ [2] /\
    (1 <> 2 -> as_mision_activa res = false /\ as_en_cola res = true).
Proof.
  assert (R : reachable db_activa).
  { unfold db_activa, db_inicial. repeat apply reachable_run. constructor. }
  assert (H : ~ In 2 (pending_queue db_activa 1)) by (intros []).
  split; [exact R|]. split; [exact H|].
  exact (asignar_mision_activa_o_cola db_activa 1 2
           {| Personaje.id := 1; Personaje.nombre := lit "Ana";
              Personaje.xp := 0; Personaje.mision_activa_id := Some 1 |}
           {| Mision.id := 2; Mision.titulo := lit "Dragon"; Mision.xp := 100 |}
           R eq_refl eq_refl H).
Defined.

(** C5, as stated, fails: for the existing character 1, whose active
    quest is 1, the catalog quest 2 that already waits in the queue is
    not appended, the call fails; and the catalog quest 1 is appended to
    the queue while the answer says that it became active. *)
Lemma asignar_mision_no_encola_o_informa_mal :
  (get_personaje db_en_cola 1 <> None /\
   get_mision db_en_cola 2 <> None /\
   active_quest db_en_cola 1 = Some 1 /\
   asignar_mision 1 2 db_en_cola =
     (db_en_cola,
      inl (HTTPException 400
             (Envuelto "Error asignando misión: "
                (IntegrityError "personaje_misiones_pendientes"))))) /\
  (get_mision db_en_cola 1 <> None /\
   pending_queue (fst (asignar_mision 1 1 db_en_cola)) 1 = [2; 1] /\
   active_quest (fst (asignar_mision 1 1 db_en_cola)) 1 = Some 1 /\
   snd (asignar_mision 1 1 db_en_cola) =
     inr {| as_mensaje := "Misión asignada correctamente";
            as_mision_activa := true; as_en_cola := false |}).
Proof.
  repeat split; try discriminate; reflexivity.
Qed.

(** ** Sequence numbers *)

(** C4, amended. A successful [asignar_mision] either leaves the pending
    table as it was (the quest became active) or appends one row for the
    character and quest whose [orden] is strictly greater than the
    [orden] of every row the character has in its queue at that moment;
    in every store the API can produce, the rows of a character
    therefore carry strictly increasing numbers in insertion order. *)
Theorem orden_mayor_que_los_pendientes
  (db db' : DB) (pid mid : Z) (res : MisionAsignada) :
  reachable db ->
  asignar_mision pid mid db = (db', inr res) ->
  (personaje_misiones_pendientes db' = personaje_misiones_pendientes db \/
   exists ord,
     personaje_misiones_pendientes db' =
       personaje_misiones_pendientes db ++
       [ {| Pendiente.personaje_id := pid;
            Pendiente.mision_id := mid;
            Pendiente.orden := ord |} ] /\
     Forall (fun r => Pendiente.orden r < ord) (pendientes_de db pid)) /\
  forall pid', StronglySorted Z.lt (List.map Pendiente.orden (pendientes_de db' pid')).
Proof.
  intros R H. pose proof (reachable_inv db R) as I.
  pose proof (asignar_mision_inv db pid mid I) as I'. rewrite H in I'. cbn in I'.
  split; [|apply (inv_orden db' I')].
  destruct (get_personaje db pid) as [p|] eqn:Hp;
    [|rewrite asignar_sin_personaje in H by assumption; discriminate].
  destruct (get_mision db mid) as [m|] eqn:Hm;
    [|rewrite (asignar_sin_mision db pid mid p) in H by assumption; discriminate].
  destruct (truthy (Personaje.mision_activa_id p)) eqn:Ht.
  - destruct (existsb (pk_pendiente pid mid) (personaje_misiones_pendientes db)) eqn:Hk.
    + rewrite (asignar_repetida db pid mid p m) in H by assumption. discriminate.
    + rewrite (asignar_en_cola db pid mid p m) in H by assumption.
      injection H as <- _. right. eexists. split; [reflexivity|].
      pose proof (py_or_max_upper (List.map Pendiente.orden (pendientes_de db pid))) as U.
      rewrite Forall_map in U. exact U.
  - rewrite (asignar_activa db pid mid p m) in H by assumption.
    injection H as <- _. left. reflexivity.
Qed.

Lemma orden_mayor_que_los_pendientes_ejemplo :
  reachable db_activa /\
  StronglySorted Z.lt
    (List.map Pendiente.orden (pendientes_de (fst (asignar_mision 1 2 db_activa)) 1)).
Proof.
  assert (R : reachable db_activa).
  { unfold db_activa, db_inicial. repeat apply reachable_run. constructor. }
  split; [exact R|].
  exact (proj2 (orden_mayor_que_los_pendientes db_activa
                  (fst (asignar_mision 1 2 db_activa)) 1 2
                  {| as_mensaje := "Misión asignada correctamente";
                     as_mision_activa := false; as_en_cola := true |}
                  R eq_refl) 1).
Defined.

(** C4, as stated, fails: quest 2 is queued with number 1 and promoted
    by [completar_mision]; quest 3, queued afterwards, receives the
    number 1 again. *)
Lemma orden_reutilizado :
  personaje_misiones_pendientes db_en_cola =
    [ {| Pendiente.personaje_id := 1; Pendiente.mision_id := 2;
         Pendiente.orden := 1 |} ] /\
  personaje_misiones_pendientes (run [CompletarMision 1] db_en_cola) = [] /\
  personaje_misiones_pendientes
    (run [CompletarMision 1; AsignarMision 1 3] db_en_cola) =
    [ {| Pendiente.personaje_id := 1; Pendiente.mision_id := 3;
         Pendiente.orden := 1 |} ].
Proof.
  repeat split; reflexivity.
Qed.

(** ** Completing the active quest *)

Lemma filter_all {A : Type} (f : A -> bool) (l : list A) :
  (forall x, In x l -> f x = true) -> filter f l = l.
Proof.
  induction l as [|x l IH]; cbn; intros H; [reflexivity|].
  rewrite (H x (or_introl eq_refl)). f_equal. apply IH.
  intros y Hy. apply H. right. exact Hy.
Qed.

Lemma pendientes_de_pid (db : DB) (pid : Z) (r : Pendiente.t) :
  In r (pendientes_de db pid) -> Pendiente.personaje_id r = pid.
Proof.
  unfold pendientes_de. intros H. apply filter_In in H.
  apply Z.eqb_eq. tauto.
Qed.

Lemma pendientes_de_mids_NoDup (db : DB) (pid : Z) :
  Inv db -> NoDup (List.map Pendiente.mision_id (pendientes_de db pid)).
Proof.
  intros I.
  pose proof (NoDup_map_filter
                (fun r => (Pendiente.personaje_id r, Pendiente.mision_id r))
                (fun r => Pendiente.personaje_id r =? pid)
                _ (inv_pk_pendientes db I)) as H.
  fold (pendientes_de db pid) in H.
  pose proof (pendientes_de_pid db pid) as Hq.
  induction (pendientes_de db pid) as [|r l IH]; cbn in *; [constructor|].
  inversion H as [|? ? Hx Hn]; subst.
  constructor.
  - intros Hin. apply Hx. rewrite in_map_iff in *.
    destruct Hin as [r' [E Hr']]. exists r'. split; [|exact Hr'].
    rewrite E, (Hq r' (or_intror Hr')), (Hq r (or_introl eq_refl)). reflexivity.
  - apply IH; [exact Hn|]. intros r' Hr'. apply Hq. right. exact Hr'.
Qed.

Lemma pendientes_de_tras_borrar (db : DB) (pid : Z) (r : Pendiente.t)
  (rest : list Pendiente.t) :
  Inv db ->
  pendientes_de db pid = r :: rest ->
  filter (fun x => Pendiente.personaje_id x =? pid)
         (filter (fun x => negb (pk_pendiente pid (Pendiente.mision_id r) x))
                 (personaje_misiones_pendientes db)) = rest.
Proof.
  intros I E. rewrite filter_filter_comm. fold (pendientes_de db pid).
  pose proof (pendientes_de_mids_NoDup db pid I) as Hn.
  pose proof (pendientes_de_pid db pid) as Hq.
  rewrite E in *. cbn.
  unfold pk_pendiente at 1.
  rewrite (Hq r (or_introl eq_refl)), !Z.eqb_refl. cbn.
  apply filter_all. intros x Hx.
  inversion Hn as [|? ? Hnot _]; subst.
  unfold pk_pendiente.
  destruct (Z.eqb_spec (Pendiente.mision_id x) (Pendiente.mision_id r)) as [Em|Em];
    [|rewrite andb_false_r; reflexivity].
  exfalso. apply Hnot. rewrite <- Em. apply in_map. exact Hx.
Qed.

(** C2, amended. In every store the API can produce, for a character
    whose active quest Q is not already in its completed set and whose
    experience plus the reward of Q is at most the largest INTEGER value
    of the store, [completar_mision] succeeds: Q is added to the
    completed set, the
    experience grows by exactly the reward of Q, the row of the pending
    queue with the lowest [orden] is removed from the queue and its quest
    becomes the active quest (no active quest is left when the queue is
    empty), and the answer carries the reward and the new total. *)
Theorem completar_mision_promueve (db : DB) (pid q : Z) (p : Personaje.t) :
  reachable db ->
  get_personaje db pid = Some p ->
  Personaje.mision_activa_id p = Some q ->
  ~ In q (completed_set db pid) ->
  Personaje.xp p + recompensa db q <= INT64_MAX ->
  exists m db',
    get_mision db q = Some m /\
    completar_mision pid db =
      (db', inr {| co_mensaje := "Misión completada exitosamente";
                   co_xp_ganada := Mision.xp m;
                   co_xp_total := Personaje.xp p + Mision.xp m |}) /\
    xp_total db' pid = Some (Personaje.xp p + Mision.xp m) /\
    completed_set db' pid = completed_set db pid ++ [q] /\
    match order_by_orden (pendientes_de db pid) with
    | [] => active_quest db' pid = None /\ pending_queue db' pid = []
    | r :: rest =>
        active_quest db' pid = Some (Pendiente.mision_id r) /\
        Forall (fun r' => Pendiente.orden r < Pendiente.orden r') rest /\
        pending_queue db pid =
          Pendiente.mision_id r :: List.map Pendiente.mision_id rest /\
        pending_queue db' pid = List.map Pendiente.mision_id rest
    end.
Proof.
  intros R Hp Ha Hn Hmax. pose proof (reachable_inv db R) as I.
  pose proof (reachable_activa_positiva db pid q p I Hp Ha) as Hpos.
  destruct (personaje_en_tabla_ok db pid p I Hp) as [Hxp0 Hex].
  destruct (Hex q Ha) as [m Hm].
  destruct (get_personaje_id db pid p Hp) as [Hid _].
  assert (Hrg : en_rango (Personaje.xp p + Mision.xp m) = true).
  { destruct (mision_en_catalogo_positiva db q m I Hm) as [_ Hxm].
    unfold recompensa in Hmax. rewrite Hm in Hmax.
    unfold en_rango, INT64_MAX in *. apply andb_true_iff.
    split; apply Z.leb_le; lia. }
  assert (Hk : existsb (pk_completada pid q) (personaje_misiones_completadas db) = false).
  { apply not_true_is_false. intros Hk. apply Hn, pk_completada_In. exact Hk. }
  assert (Hnz : q <> 0) by lia.
  pose proof (completar_mision_inv db pid I) as I'.
  destruct (completar_ok db pid q p m Hp Ha Hnz Hm Hk Hrg)
    as [db' [E [Hper [Hmis [Hcom Hpen]]]]].
  rewrite E in I'. cbn [fst] in I'.
  exists m, db'. split; [exact Hm|]. split; [exact E|].
  assert (Hgp : get_personaje db' pid =
                Some {| Personaje.id := Personaje.id p;
                        Personaje.nombre := Personaje.nombre p;
                        Personaje.xp := Personaje.xp p + Mision.xp m;
                        Personaje.mision_activa_id := select_siguiente db pid |}).
  { unfold get_personaje. rewrite Hper. fold (get_personaje (update_personaje db
      {| Personaje.id := Personaje.id p;
         Personaje.nombre := Personaje.nombre p;
         Personaje.xp := Personaje.xp p + Mision.xp m;
         Personaje.mision_activa_id := select_siguiente db pid |}) pid).
    rewrite get_personaje_update. cbn [Personaje.id].
    rewrite Hid, Z.eqb_refl, Hp. reflexivity. }
  split; [unfold xp_total; rewrite Hgp; reflexivity|].
  split.
  { unfold completed_set, completadas_de. rewrite Hcom, filter_app, map_app.
    cbn. rewrite Z.eqb_refl. reflexivity. }
  unfold active_quest. rewrite Hgp. cbn [Personaje.mision_activa_id].
  rewrite (pending_queue_rows db' pid I'), (pending_queue_rows db pid I).
  pose proof (inv_orden db I pid) as Hs.
  unfold select_siguiente in *.
  rewrite (order_by_orden_sorted _ Hs) in *.
  destruct (pendientes_de db pid) as [|r rest] eqn:Er.
  - split; [reflexivity|].
    unfold pendientes_de in *. rewrite Hpen, Er. reflexivity.
  - split; [reflexivity|]. split; [|split; [reflexivity|]].
    + cbn in Hs. inversion Hs as [|? ? _ Hf]; subst.
      rewrite Forall_map in Hf. exact Hf.
    + unfold pendientes_de at 1. rewrite Hpen.
      rewrite (pendientes_de_tras_borrar db pid r rest I Er). reflexivity.
Qed.

Lemma completar_mision_promueve_ejemplo :
  reachable db_en_cola /\
  ~ In 1 (completed_set db_en_cola 1) /\
  0 + recompensa db_en_cola 1 <= INT64_MAX /\
  exists m db',
    get_mision db_en_cola 1 = Some m /\
    completar_mision 1 db_en_cola =
      (db', inr {| co_mensaje := "Misión completada exitosamente";
                   co_xp_ganada := Mision.xp m;
                   co_xp_total := 0 + Mision.xp m |}) /\
    xp_total db' 1 = Some (0 + Mision.xp m) /\
    completed_set db' 1 = completed_set db_en_cola 1 ++ [1] /\
    active_quest db' 1 = Some 2 /\
    pending_queue db' 1 = [].
Proof.
  assert (R : reachable db_en_cola).
  { unfold db_en_cola, db_activa, db_inicial.
    repeat apply reachable_run. constructor. }
  assert (H : ~ In 1 (completed_set db_en_cola 1)) by (intros []).
  assert (H' : 0 + recompensa db_en_cola 1 <= INT64_MAX) by (vm_compute; discriminate).
  split; [exact R|]. split; [exact H|]. split; [exact H'|].
  destruct (completar_mision_promueve db_en_cola 1 1
              {| Personaje.id := 1; Personaje.nombre := lit "Ana";
                 Personaje.xp := 0; Personaje.mision_activa_id := Some 1 |}
              R eq_refl eq_refl H H')
    as [m [db' [H1 [H2 [H3 [H4 H5]]]]]].
  exists m, db'. cbn in H5. tauto.
Defined.

(** At the largest INTEGER value the experience cannot grow: the commit
    raises [OverflowError], the handler rolls back and answers 500. *)
Lemma completar_mision_al_limite :
  xp_total db_al_limite 1 = Some INT64_MAX /\
  active_quest db_al_limite 1 = Some 2 /\
  completed_set db_al_limite 1 = [1] /\
  completar_mision 1 db_al_limite =
    (db_al_limite,
     inl (HTTPException 500
            (Envuelto "Error completando misión: " OverflowError))).
Proof.
  repeat split; reflexivity.
Qed.

(** C2, as stated, fails: character 1 has the active quest 1, which it
    has already completed; [completar_mision] fails on the primary key
    of the completed table and nothing changes. *)
Lemma completar_mision_ya_completada :
  active_quest db_repetida 1 = Some 1 /\
  completed_set db_repetida 1 = [1] /\
  completar_mision 1 db_repetida =
    (db_repetida,
     inl (HTTPException 500
            (Envuelto "Error completando misión: "
               (IntegrityError "personaje_misiones_completadas")))).
Proof.
  repeat split; reflexivity.
Qed.

(** ** The progression record stays consistent *)

Lemma reachable_disponibles_reachable (db : DB) :
  reachable_disponibles db -> reachable db.
Proof.
  induction 1; constructor; assumption.
Qed.

Lemma pending_queue_NoDup (db : DB) (pid : Z) :
  Inv db -> NoDup (pending_queue db pid).
Proof.
  intros I. rewrite (pending_queue_rows db pid I).
  apply pendientes_de_mids_NoDup. exact I.
Qed.

Lemma registro_disjunto_intro (db : DB) (pid : Z) :
  Inv db ->
  (forall a, active_quest db pid = Some a ->
             ~ In a (pending_queue db pid) /\ ~ In a (completed_set db pid)) ->
  (forall x, In x (pending_queue db pid) -> ~ In x (completed_set db pid)) ->
  registro_disjunto db pid.
Proof.
  intros I H1 H2. repeat split.
  - intros a Ha. apply (H1 a Ha).
  - intros a Ha. apply (H1 a Ha).
  - exact H2.
  - apply pending_queue_NoDup. exact I.
Qed.

Lemma registro_disjunto_mismas_tablas (db db' : DB) (pid : Z) :
  personajes db' = personajes db ->
  personaje_misiones_pendientes db' = personaje_misiones_pendientes db ->
  personaje_misiones_completadas db' = personaje_misiones_completadas db ->
  registro_disjunto db pid -> registro_disjunto db' pid.
Proof.
  intros E1 E2 E3.
  unfold registro_disjunto, active_quest, get_personaje, pending_queue,
    completed_set, pendientes_de, completadas_de.
  rewrite E1, E2, E3. tauto.
Qed.

Lemma find_snoc {A : Type} (f : A -> bool) (l : list A) (x y : A) :
  find f (l ++ [x]) = Some y -> find f l = Some y \/ (find f l = None /\ y = x).
Proof.
  induction l as [|z l IH]; cbn.
  - destruct (f x); [|discriminate]. intros H; injection H as <-. auto.
  - destruct (f z); auto.
Qed.

Lemma crear_mision_tablas (db : DB) (titulo : str) (xp : Z) :
  personaje_misiones_pendientes (fst (crear_mision titulo xp db)) =
    personaje_misiones_pendientes db /\
  personaje_misiones_completadas (fst (crear_mision titulo xp db)) =
    personaje_misiones_completadas db.
Proof.
  unfold crear_mision.
  destruct (validar_crear_mision titulo xp); [|split; reflexivity].
  run_endpoint.
  destruct (first_mision_titulo db titulo); cbn; [split; reflexivity|].
  unfold add_mision. destruct (en_rango xp); cbn; [|split; reflexivity].
  destruct (existsb _ (misiones db)); split; reflexivity.
Qed.

Lemma crear_personaje_disjunto (db : DB) (nombre : option str) (pid : Z) :
  Inv db ->
  registro_disjunto db pid ->
  registro_disjunto (fst (crear_personaje nombre db)) pid.
Proof.
  intros I D. pose proof (crear_personaje_inv db nombre I) as I'.
  revert I'. unfold crear_personaje. run_endpoint.
  destruct nombre as [[|ch n]|]; cbn; try (intros _; exact D).
  destruct (first_personaje_nombre db (ch :: n)); cbn; [intros _; exact D|].
  intros I'. destruct D as [D1 [D2 [D3 _]]].
  assert (Hact : forall a,
    active_quest
      {| personajes :=
           personajes db ++
           [{| Personaje.id := next_rowid (List.map Personaje.id (personajes db));
               Personaje.nombre := ch :: n;
               Personaje.xp := 0;
               Personaje.mision_activa_id := None |}];
         misiones := misiones db;
         personaje_misiones_completadas := personaje_misiones_completadas db;
         personaje_misiones_pendientes := personaje_misiones_pendientes db |} pid
    = Some a -> active_quest db pid = Some a).
  { intros a. unfold active_quest, get_personaje. cbn.
    destruct (find _ (personajes db ++ _)) as [p|] eqn:F; [|discriminate].
    apply find_snoc in F. destruct F as [F|[F ->]].
    - rewrite F. auto.
    - cbn. discriminate. }
  apply registro_disjunto_intro; [exact I'| |exact D3].
  intros a Ha. apply Hact in Ha. split; [apply (D1 a Ha)|apply (D2 a Ha)].
Qed.

Lemma asignar_mision_disjunto (db : DB) (pid mid pid0 : Z) :
  Inv db ->
  no_asignada db pid mid ->
  registro_disjunto db pid0 ->
  registro_disjunto (fst (asignar_mision pid mid db)) pid0.
Proof.
  intros I [G1 [G2 G3]] D.
  pose proof (asignar_mision_inv db pid mid I) as I'. revert I'.
  destruct (get_personaje db pid) as [p|] eqn:Hp;
    [|rewrite asignar_sin_personaje by assumption; intros _; exact D].
  destruct (get_mision db mid) as [m|] eqn:Hm;
    [|rewrite (asignar_sin_mision db pid mid p) by assumption; intros _; exact D].
  destruct (get_personaje_id db pid p Hp) as [Hid _].
  destruct D as [D1 [D2 [D3 _]]].
  destruct (truthy (Personaje.mision_activa_id p)) eqn:Ht.
  - destruct (existsb (pk_pendiente pid mid) (personaje_misiones_pendientes db)) eqn:Hk.
    + exfalso. apply G2, pk_pendiente_In. exact Hk.
    + rewrite (asignar_en_cola db pid mid p m) by assumption. cbn [fst].
      intros I'.
      set (db' := {| personajes := personajes db;
                     misiones := misiones db;
                     personaje_misiones_completadas := personaje_misiones_completadas db;
                     personaje_misiones_pendientes := _ |}) in *.
      assert (Hpq : forall x, In x (pending_queue db' pid0) ->
                In x (pending_queue db pid0) \/ (pid0 = pid /\ x = mid)).
      { intros x. rewrite !pending_queue_In. intros [r [Hr [E1 E2]]].
        cbn in Hr. apply in_app_or in Hr. destruct Hr as [Hr|[<-|[]]].
        - left. eauto.
        - right. cbn in *. auto. }
      apply registro_disjunto_intro; [exact I'| |].
      * intros a Ha. change (active_quest db pid0 = Some a) in Ha.
        split; [|apply (D2 a Ha)].
        intros Hin. apply Hpq in Hin. destruct Hin as [Hin|[-> ->]].
        -- apply (D1 a Ha Hin).
        -- apply G1. exact Ha.
      * intros x Hin. change (~ In x (completed_set db pid0)).
        apply Hpq in Hin. destruct Hin as [Hin|[-> ->]]; [apply (D3 x Hin)|exact G3].
  - rewrite (asignar_activa db pid mid p m) by assumption. cbn [fst].
    intros I'.
    apply registro_disjunto_intro; [exact I'| |exact D3].
    intros a. unfold active_quest. rewrite get_personaje_update.
    cbn [Personaje.id set_mision_activa_id].
    change (pending_queue (update_personaje db (set_mision_activa_id p (Some mid))) pid0)
      with (pending_queue db pid0).
    change (completed_set (update_personaje db (set_mision_activa_id p (Some mid))) pid0)
      with (completed_set db pid0).
    destruct (Z.eqb_spec pid0 (Personaje.id p)) as [E|E].
    + assert (E' : pid0 = pid) by congruence. rewrite E'. rewrite Hp. cbn.
      intros H; injection H as <-. auto.
    + intros Ha. split; [apply (D1 a Ha)|apply (D2 a Ha)].
Qed.

Lemma completar_mision_disjunto (db : DB) (pid pid0 : Z) :
  Inv db ->
  (forall x, registro_disjunto db x) ->
  registro_disjunto (fst (completar_mision pid db)) pid0.
Proof.
  intros I D.
  pose proof (completar_mision_inv db pid I) as I'. revert I'.
  destruct (get_personaje db pid) as [p|] eqn:Hp;
    [|rewrite completar_sin_personaje by assumption; intros _; apply D].
  destruct (truthy (Personaje.mision_activa_id p)) eqn:Ht;
    [|rewrite (completar_sin_activa db pid p) by assumption; intros _; apply D].
  destruct (truthy_some _ Ht) as [a [Ha Hnz]].
  destruct (get_mision db a) as [m|] eqn:Hm;
    [|rewrite (completar_activa_perdida db pid a p) by assumption;
      intros _; apply D].
  destruct (existsb (pk_completada pid a) (personaje_misiones_completadas db)) eqn:Hk;
    [rewrite (completar_ya_completada db pid a p m) by assumption;
     intros _; apply D|].
  destruct (en_rango (Personaje.xp p + Mision.xp m)) eqn:Hrg;
    [|rewrite (completar_desborda db pid a p m) by assumption;
      intros _; apply D].
  destruct (completar_ok db pid a p m Hp Ha Hnz Hm Hk Hrg)
    as [db' [-> [Hper [Hmis [Hcom Hpen]]]]]. cbn [fst]. intros I'.
  destruct (get_personaje_id db pid p Hp) as [Hid _].
  assert (Hact : active_quest db pid = Some a).
  { unfold active_quest. rewrite Hp. exact Ha. }
  assert (Hgp : forall x, get_personaje db' x =
      if x =? Personaje.id p
      then option_map
             (fun _ => {| Personaje.id := Personaje.id p;
                          Personaje.nombre := Personaje.nombre p;
                          Personaje.xp := Personaje.xp p + Mision.xp m;
                          Personaje.mision_activa_id := select_siguiente db pid |})
             (get_personaje db x)
      else get_personaje db x).
  { intros x.
    pose proof (get_personaje_update db
      {| Personaje.id := Personaje.id p;
         Personaje.nombre := Personaje.nombre p;
         Personaje.xp := Personaje.xp p + Mision.xp m;
         Personaje.mision_activa_id := select_siguiente db pid |} x) as U.
    cbn [Personaje.id] in U. rewrite <- U.
    unfold get_personaje. rewrite Hper. reflexivity. }
  assert (Hpq : forall x, In x (pending_queue db' pid0) ->
            In x (pending_queue db pid0) /\
            (pid0 = pid -> select_siguiente db pid <> Some x)).
  { intros x. rewrite !pending_queue_In. rewrite Hpen.
    intros [r [Hr [E1 E2]]].
    destruct (select_siguiente db pid) as [s|] eqn:Es.
    - apply filter_In in Hr. destruct Hr as [Hr Hf].
      split; [eauto|]. intros -> Hs. injection Hs as ->.
      unfold pk_pendiente in Hf. rewrite E1, E2, !Z.eqb_refl in Hf.
      discriminate.
    - split; [eauto|]. discriminate. }
  assert (Hcs : forall x, In x (completed_set db' pid0) ->
            In x (completed_set db pid0) \/ (pid0 = pid /\ x = a)).
  { intros x. rewrite !completed_set_In. rewrite Hcom.
    intros [r [Hr [E1 E2]]].
    apply in_app_or in Hr. destruct Hr as [Hr|[<-|[]]].
    - left. eauto.
    - right. cbn in *. auto. }
  destruct (D pid) as [P1 [P2 [P3 _]]].
  destruct (D pid0) as [D1 [D2 [D3 _]]].
  apply registro_disjunto_intro; [exact I'| |].
  - intros b. unfold active_quest. rewrite Hgp, Hid.
    destruct (Z.eqb_spec pid0 pid) as [E|E].
    + subst pid0. rewrite Hp. cbn. intros Hs. split.
      * intros Hin. apply Hpq in Hin. destruct Hin as [_ Hin].
        apply (Hin eq_refl). exact Hs.
      * intros Hin. apply Hcs in Hin.
        assert (Hb : In b (pending_queue db pid)).
        { destruct (select_siguiente_In db pid b Hs) as [r Hr].
          apply pending_queue_In. eauto. }
        destruct Hin as [Hin|[_ ->]].
        -- apply (P3 b Hb Hin).
        -- apply (P1 a Hact Hb).
    + intros Hb. change (active_quest db pid0 = Some b) in Hb. split.
      * intros Hin. apply Hpq in Hin. apply (D1 b Hb). tauto.
      * intros Hin. apply Hcs in Hin. destruct Hin as [Hin|[Hc _]];
          [apply (D2 b Hb Hin)|contradiction].
  - intros x Hx Hin. apply Hpq in Hx. destruct Hx as [Hx _].
    apply Hcs in Hin. destruct Hin as [Hin|[-> ->]].
    + apply (D3 x Hx Hin).
    + apply (P1 a Hact Hx).
Qed.

Lemma handle_disjunto (r : Request) (db : DB) :
  Inv db ->
  (forall pid mid, r = AsignarMision pid mid -> no_asignada db pid mid) ->
  (forall x, registro_disjunto db x) ->
  forall x, registro_disjunto (handle r db) x.
Proof.
  intros I G D x. destruct r as [nombre|titulo xp|pid|pid|pid mid|pid]; cbn.
  - apply crear_personaje_disjunto; [exact I|apply D].
  - destruct (crear_mision_tablas db titulo xp) as [E2 E3].
    apply (registro_disjunto_mismas_tablas db);
      [apply crear_mision_personajes|exact E2|exact E3|apply D].
  - rewrite listar_misiones_personaje_db. apply D.
  - rewrite listar_misiones_disponibles_db. apply D.
  - apply asignar_mision_disjunto; [exact I|apply G; reflexivity|apply D].
  - apply completar_mision_disjunto; [exact I|exact D].
Qed.

(** C3, amended. In every store the API can produce, the pending queue
    of every character has no repeated entries. When moreover every
    assignment named a quest that the character neither held nor had
    finished, the active quest of every character is neither in its
    pending queue nor in its completed set, and its pending queue and
    completed set are disjoint. *)
Theorem registro_consistente (db : DB) (pid : Z) :
  (reachable db -> NoDup (pending_queue db pid)) /\
  (reachable_disponibles db -> registro_disjunto db pid).
Proof.
  split.
  - intros R. apply pending_queue_NoDup, reachable_inv, R.
  - intros R. revert pid. induction R as [|r db R IH G]; intros pid.
    + repeat split; cbn; try discriminate; try tauto. constructor.
    + apply handle_disjunto; [|exact G|exact IH].
      apply reachable_inv, reachable_disponibles_reachable, R.
Qed.

Lemma registro_consistente_ejemplo :
  reachable db_mezclada /\ NoDup (pending_queue db_mezclada 1) /\
  reachable_disponibles db_en_cola /\ registro_disjunto db_en_cola 1.
Proof.
  assert (R : reachable db_mezclada).
  { unfold db_mezclada, db_repetida, db_activa, db_inicial.
    repeat apply reachable_run. constructor. }
  assert (R' : reachable_disponibles db_en_cola).
  { unfold db_en_cola, db_activa, db_inicial, run. cbn [fold_left].
    repeat (apply reachable_disponibles_step;
            [|intros pid mid E; try discriminate E; injection E as <- <-;
              repeat split; cbn; intro H; try discriminate H; tauto]).
    constructor. }
  split; [exact R|]. split; [exact (proj1 (registro_consistente db_mezclada 1) R)|].
  split; [exact R'|]. exact (proj2 (registro_consistente db_en_cola 1) R').
Defined.

(** C3, as stated, fails: after quest 1 is completed and assigned
    again, and quests 2 and 1 are queued, the active quest 1 of
    character 1 is in its pending queue and in its completed set, and
    the two share quest 1. *)
Lemma registro_no_disjunto :
  db_mezclada =
    run [AsignarMision 1 1; CompletarMision 1; AsignarMision 1 1;
         AsignarMision 1 2; AsignarMision 1 1] db_inicial /\
  active_quest db_mezclada 1 = Some 1 /\
  pending_queue db_mezclada 1 = [2; 1] /\
  completed_set db_mezclada 1 = [1].
Proof.
  repeat split; reflexivity.
Qed.

(** ** Creating characters and quests, case by case *)

Lemma crear_personaje_sin_nombre (db : DB) (nombre : option str) :
  nombre = None \/ nombre = Some [] ->
  crear_personaje nombre db =
  (db, inl (HTTPException 400
              (Envuelto "Error creando personaje: "
                 (HTTPException 400 (Texto "El nombre es requerido"))))).
Proof.
  intros [-> | ->]; reflexivity.
Qed.

Lemma crear_personaje_repetido (db : DB) (n : str) (p : Personaje.t) :
  n <> [] ->
  first_personaje_nombre db n = Some p ->
  crear_personaje (Some n) db =
  (db, inl (HTTPException 400
              (Envuelto "Error creando personaje: "
                 (HTTPException 400
                    (Texto "Ya existe un personaje con este nombre"))))).
Proof.
  intros Hn H. destruct n as [|ch n]; [contradiction|].
  unfold crear_personaje. run_endpoint. rewrite H. reflexivity.
Qed.

Lemma crear_personaje_ok (db : DB) (n : str) :
  n <> [] ->
  first_personaje_nombre db n = None ->
  crear_personaje (Some n) db =
  (snd (add_personaje db n 0),
   inr {| pc_id := next_rowid (List.map Personaje.id (personajes db));
          pc_nombre := n;
          pc_xp := 0 |}).
Proof.
  intros Hn H. destruct n as [|ch n]; [contradiction|].
  unfold crear_personaje. run_endpoint. rewrite H. reflexivity.
Qed.

Lemma first_mision_titulo_none (db : DB) (titulo : str) :
  first_mision_titulo db titulo = None ->
  existsb (fun m => str_eqb (Mision.titulo m) titulo) (misiones db) = false /\
  ~ In titulo (List.map Mision.titulo (misiones db)).
Proof.
  unfold first_mision_titulo. intros H.
  pose proof (find_none _ _ H) as Hn. cbn in Hn. split.
  - apply not_true_is_false. intros E. apply existsb_exists in E.
    destruct E as [m [Hin Hm]]. rewrite (Hn m Hin) in Hm. discriminate.
  - rewrite in_map_iff. intros [m [E Hin]].
    pose proof (Hn m Hin) as Hf. rewrite E, str_eqb_refl in Hf. discriminate.
Qed.

Lemma first_personaje_nombre_none (db : DB) (n : str) :
  first_personaje_nombre db n = None ->
  ~ In n (List.map Personaje.nombre (personajes db)).
Proof.
  unfold first_personaje_nombre. intros H.
  pose proof (find_none _ _ H) as Hn. cbn in Hn.
  rewrite in_map_iff. intros [p [E Hin]].
  pose proof (Hn p Hin) as Hf. rewrite E, str_eqb_refl in Hf. discriminate.
Qed.

Lemma en_rango_positivo (v : Z) : 0 < v -> v <= INT64_MAX -> en_rango v = true.
Proof.
  intros H0 H1. unfold en_rango, INT64_MAX in *.
  apply andb_true_iff. split; apply Z.leb_le; lia.
Qed.

Lemma fuera_de_rango_positivo (v : Z) : INT64_MAX < v -> en_rango v = false.
Proof.
  intros H. unfold en_rango, INT64_MAX in *.
  apply andb_false_iff. right. apply Z.leb_gt. lia.
Qed.

Lemma crear_mision_ok (db : DB) (titulo : str) (xp : Z) :
  3 <= len titulo -> 0 < xp -> xp <= INT64_MAX ->
  first_mision_titulo db titulo = None ->
  crear_mision titulo xp db =
  ({| personajes := personajes db;
      misiones :=
        misiones db ++
        [ {| Mision.id := next_rowid (List.map Mision.id (misiones db));
             Mision.titulo := titulo;
             Mision.xp := xp |} ];
      personaje_misiones_completadas := personaje_misiones_completadas db;
      personaje_misiones_pendientes := personaje_misiones_pendientes db |},
   inr {| mc_id := next_rowid (List.map Mision.id (misiones db));
          mc_titulo := titulo;
          mc_xp := xp;
          mc_mensaje := "Misión creada exitosamente" |}).
Proof.
  intros Hl Hx Hmax H. unfold crear_mision, validar_crear_mision.
  destruct (Z.ltb_spec (len titulo) 3); [lia|].
  destruct (Z.leb_spec xp 0); [lia|]. cbn.
  run_endpoint. rewrite H. cbn. unfold add_mision.
  rewrite (en_rango_positivo xp Hx Hmax). cbn.
  rewrite (proj1 (first_mision_titulo_none db titulo H)). reflexivity.
Qed.

Lemma crear_mision_desborda (db : DB) (titulo : str) (xp : Z) :
  3 <= len titulo -> INT64_MAX < xp ->
  first_mision_titulo db titulo = None ->
  crear_mision titulo xp db =
  (db, inl (HTTPException 400 (Envuelto "Error creando misión: " OverflowError))).
Proof.
  intros Hl Hmax H. unfold crear_mision, validar_crear_mision.
  destruct (Z.ltb_spec (len titulo) 3); [lia|].
  destruct (Z.leb_spec xp 0); [unfold INT64_MAX in *; lia|]. cbn.
  run_endpoint. rewrite H. cbn. unfold add_mision.
  rewrite (fuera_de_rango_positivo xp Hmax). reflexivity.
Qed.

Lemma crear_mision_cases (db : DB) (titulo : str) (xp : Z) :
  fst (crear_mision titulo xp db) = db \/
  (3 <= len titulo /\ 0 < xp /\ xp <= INT64_MAX /\
   first_mision_titulo db titulo = None).
Proof.
  destruct (Z.ltb_spec (len titulo) 3) as [Hl|Hl];
    [left; unfold crear_mision, validar_crear_mision;
     destruct (Z.ltb_spec (len titulo) 3); [reflexivity|lia]|].
  destruct (Z.leb_spec xp 0) as [Hx|Hx];
    [left; unfold crear_mision, validar_crear_mision;
     destruct (Z.ltb_spec (len titulo) 3); [lia|];
     destruct (Z.leb_spec xp 0); [reflexivity|lia]|].
  destruct (first_mision_titulo db titulo) as [m|] eqn:F.
  - left. unfold crear_mision, validar_crear_mision.
    destruct (Z.ltb_spec (len titulo) 3); [lia|].
    destruct (Z.leb_spec xp 0); [lia|]. cbn.
    run_endpoint. rewrite F. reflexivity.
  - destruct (Z.le_gt_cases xp INT64_MAX) as [Hmax|Hmax]; [right; auto|].
    left. rewrite (crear_mision_desborda db titulo xp Hl Hmax F). reflexivity.
Qed.

Lemma crear_personaje_cases (db : DB) (nombre : option str) :
  fst (crear_personaje nombre db) = db \/
  exists n, nombre = Some n /\ n <> [] /\ first_personaje_nombre db n = None.
Proof.
  destruct nombre as [[|ch n]|]; [left; reflexivity| |left; reflexivity].
  destruct (first_personaje_nombre db (ch :: n)) as [p|] eqn:F.
  - left. rewrite (crear_personaje_repetido db (ch :: n) p); [reflexivity| |exact F].
    discriminate.
  - right. exists (ch :: n). repeat split; [discriminate|exact F].
Qed.

(** ** Rows are identified by their key *)

Lemma unico_por_clave {A : Type} (k : A -> Z) (l : list A) (x y : A) :
  NoDup (List.map k l) -> In x l -> In y l -> k x = k y -> x = y.
Proof.
  induction l as [|z l IH]; cbn; intros Hn Hx Hy E; [contradiction|].
  inversion Hn as [|? ? Hz Hl]; subst.
  destruct Hx as [->|Hx], Hy as [->|Hy]; auto.
  - exfalso. apply Hz. rewrite E. apply in_map. exact Hy.
  - exfalso. apply Hz. rewrite <- E. apply in_map. exact Hx.
Qed.

Lemma get_mision_unico (db : DB) (m : Mision.t) :
  NoDup (List.map Mision.id (misiones db)) ->
  In m (misiones db) -> get_mision db (Mision.id m) = Some m.
Proof.
  intros Hn Hin. unfold get_mision.
  destruct (find _ (misiones db)) as [m'|] eqn:F.
  - apply find_some in F. destruct F as [Hin' E]. apply Z.eqb_eq in E.
    f_equal. apply (unico_por_clave Mision.id (misiones db)); assumption.
  - pose proof (find_none _ _ F m Hin) as Hf. cbn in Hf.
    rewrite Z.eqb_refl in Hf. discriminate.
Qed.

Lemma get_personaje_unico (db : DB) (p : Personaje.t) :
  NoDup (List.map Personaje.id (personajes db)) ->
  In p (personajes db) -> get_personaje db (Personaje.id p) = Some p.
Proof.
  intros Hn Hin. unfold get_personaje.
  destruct (find _ (personajes db)) as [p'|] eqn:F.
  - apply find_some in F. destruct F as [Hin' E]. apply Z.eqb_eq in E.
    f_equal. apply (unico_por_clave Personaje.id (personajes db)); assumption.
  - pose proof (find_none _ _ F p Hin) as Hf. cbn in Hf.
    rewrite Z.eqb_refl in Hf. discriminate.
Qed.

Lemma next_rowid_not_in (ids : list Z) : ~ In (next_rowid ids) ids.
Proof.
  intros H. pose proof (next_rowid_fresh ids) as F.
  rewrite Forall_forall in F. specialize (F _ H). lia.
Qed.

Lemma update_personaje_rows (db : DB) (p p' : Personaje.t) :
  NoDup (List.map Personaje.id (personajes db)) ->
  In p (personajes db) ->
  Personaje.id p' = Personaje.id p ->
  forall q, In q (personajes (update_personaje db p')) ->
            q = p' \/ (In q (personajes db) /\ Personaje.id q <> Personaje.id p).
Proof.
  intros Hn Hp E q. cbn. rewrite in_map_iff. intros [q0 [Hq Hin]].
  rewrite E in Hq.
  destruct (Z.eqb_spec (Personaje.id q0) (Personaje.id p)) as [E0|E0]; subst q.
  - left. reflexivity.
  - right. auto.
Qed.

Lemma update_personaje_ids (db : DB) (p' : Personaje.t) :
  List.map Personaje.id (personajes (update_personaje db p')) =
  List.map Personaje.id (personajes db).
Proof.
  cbn. rewrite map_map. apply map_ext. intros q.
  destruct (Z.eqb_spec (Personaje.id q) (Personaje.id p')); congruence.
Qed.

Lemma update_personaje_nombres (db : DB) (p p' : Personaje.t) :
  NoDup (List.map Personaje.id (personajes db)) ->
  In p (personajes db) ->
  Personaje.id p' = Personaje.id p ->
  Personaje.nombre p' = Personaje.nombre p ->
  List.map Personaje.nombre (personajes (update_personaje db p')) =
  List.map Personaje.nombre (personajes db).
Proof.
  intros Hn Hp E En. cbn. rewrite map_map. apply map_ext_in. intros q Hq.
  rewrite E.
  destruct (Z.eqb_spec (Personaje.id q) (Personaje.id p)) as [E0|E0];
    [|reflexivity].
  rewrite En. f_equal. symmetry.
  apply (unico_por_clave Personaje.id (personajes db)); assumption.
Qed.

(** ** The second invariant holds in every reachable store *)

Lemma suma_app (a b : list Z) : suma (a ++ b) = suma a + suma b.
Proof.
  unfold suma. induction a as [|x a IH]; cbn; [reflexivity|]. rewrite IH. lia.
Qed.

Lemma completada_en_catalogo (db : DB) (pid a : Z) :
  Inv2 db -> In a (completed_set db pid) ->
  (exists m, get_mision db a = Some m) /\ (exists p, get_personaje db pid = Some p).
Proof.
  intros I2 H. apply completed_set_In in H. destruct H as [r [Hr [E1 E2]]].
  pose proof (inv_completadas db I2) as Ic. rewrite Forall_forall in Ic.
  destruct (Ic r Hr) as [Hm Hp]. rewrite E1 in Hp. rewrite E2 in Hm. auto.
Qed.

Lemma xp_completadas_ext (db db' : DB) (pid : Z) :
  personaje_misiones_completadas db' = personaje_misiones_completadas db ->
  (forall a, In a (completed_set db pid) -> get_mision db' a = get_mision db a) ->
  xp_completadas db' pid = xp_completadas db pid.
Proof.
  intros E H. unfold xp_completadas.
  assert (Ec : completed_set db' pid = completed_set db pid).
  { unfold completed_set, completadas_de. rewrite E. reflexivity. }
  rewrite Ec. f_equal. apply map_ext_in. intros a Ha.
  unfold recompensa. rewrite (H a Ha). reflexivity.
Qed.

Lemma completed_set_nuevo (db : DB) :
  Inv2 db ->
  completed_set db (next_rowid (List.map Personaje.id (personajes db))) = [].
Proof.
  intros I2.
  destruct (completed_set db _) as [|a l] eqn:E; [reflexivity|].
  exfalso.
  assert (Ha : In a (completed_set db
                       (next_rowid (List.map Personaje.id (personajes db)))))
    by (rewrite E; left; reflexivity).
  destruct (completada_en_catalogo db _ a I2 Ha) as [_ [p Hp]].
  apply get_personaje_id in Hp. destruct Hp as [Hid Hin].
  apply (next_rowid_not_in (List.map Personaje.id (personajes db))).
  rewrite <- Hid. apply in_map. exact Hin.
Qed.

Lemma Inv2_empty : Inv2 empty_db.
Proof.
  constructor; cbn; constructor.
Qed.

Lemma crear_personaje_inv2 (db : DB) (nombre : option str) :
  Inv2 db -> Inv2 (fst (crear_personaje nombre db)).
Proof.
  intros I2.
  destruct (crear_personaje_cases db nombre) as [->|[n [-> [Hn F]]]]; [exact I2|].
  rewrite (crear_personaje_ok db n Hn F). cbn [fst].
  pose proof (completed_set_nuevo db I2) as Hnew.
  destruct I2 as [Ji Jt Jp Jn Jb Jc Jx].
  assert (Hpos : 0 < next_rowid (List.map Personaje.id (personajes db))).
  { apply next_rowid_positive. rewrite Forall_map.
    eapply Forall_impl; [|exact Jb]. cbn. tauto. }
  constructor; cbn; try assumption.
  - rewrite map_app. cbn. apply NoDup_snoc; [exact Jp|apply next_rowid_not_in].
  - rewrite map_app. cbn. apply NoDup_snoc; [exact Jn|].
    apply first_personaje_nombre_none. exact F.
  - apply Forall_app. split; [exact Jb|].
    constructor; [|constructor]. cbn. auto.
  - eapply Forall_impl; [|exact Jc].
    intros r [Hm [p Hp]]. split; [exact Hm|].
    exists p. unfold get_personaje in *. cbn. apply find_app_some. exact Hp.
  - apply Forall_app. split; [exact Jx|].
    constructor; [|constructor]. cbn.
    change (0 = xp_completadas db (next_rowid (List.map Personaje.id (personajes db)))).
    unfold xp_completadas. rewrite Hnew. reflexivity.
Qed.

Lemma crear_mision_inv2 (db : DB) (titulo : str) (xp : Z) :
  Inv2 db -> Inv2 (fst (crear_mision titulo xp db)).
Proof.
  intros I2.
  destruct (crear_mision_cases db titulo xp) as [->|[Hl [Hx [Hmax F]]]]; [exact I2|].
  rewrite (crear_mision_ok db titulo xp Hl Hx Hmax F). cbn [fst].
  set (db' := {| personajes := personajes db; misiones := _;
                 personaje_misiones_completadas := _;
                 personaje_misiones_pendientes := _ |}).
  assert (Hext : forall a m, get_mision db a = Some m -> get_mision db' a = Some m).
  { intros a m Hm. unfold get_mision in *. cbn. apply find_app_some. exact Hm. }
  pose proof (completada_en_catalogo db) as Hcat.
  destruct I2 as [Ji Jt Jp Jn Jb Jc Jx].
  constructor; try assumption.
  - cbn. rewrite map_app. cbn. apply NoDup_snoc; [exact Ji|apply next_rowid_not_in].
  - cbn. rewrite map_app. cbn. apply NoDup_snoc; [exact Jt|].
    apply first_mision_titulo_none. exact F.
  - cbn. eapply Forall_impl; [|exact Jc].
    intros r [[m Hm] Hp]. split; [eauto|exact Hp].
  - cbn [personajes db']. eapply Forall_impl; [|exact Jx].
    intros p Hp. cbn beta. rewrite Hp. symmetry.
    apply xp_completadas_ext; [reflexivity|].
    intros a Ha.
    destruct (Hcat (Personaje.id p) a) as [[m Hm] _];
      [constructor; assumption|exact Ha|].
    rewrite Hm. apply Hext. exact Hm.
Qed.

Lemma asignar_mision_inv2 (db : DB) (pid mid : Z) :
  Inv2 db -> Inv2 (fst (asignar_mision pid mid db)).
Proof.
  intros I2.
  destruct (get_personaje db pid) as [p|] eqn:Hp;
    [|rewrite asignar_sin_personaje by assumption; exact I2].
  destruct (get_mision db mid) as [m|] eqn:Hm;
    [|rewrite (asignar_sin_mision db pid mid p) by assumption; exact I2].
  destruct (get_personaje_id db pid p Hp) as [Hid Hin].
  destruct (truthy (Personaje.mision_activa_id p)) eqn:Ht.
  - destruct (existsb (pk_pendiente pid mid) (personaje_misiones_pendientes db)) eqn:Hk.
    + rewrite (asignar_repetida db pid mid p m) by assumption. exact I2.
    + rewrite (asignar_en_cola db pid mid p m) by assumption. cbn [fst].
      destruct I2 as [Ji Jt Jp Jn Jb Jc Jx].
      constructor; assumption.
  - rewrite (asignar_activa db pid mid p m) by assumption. cbn [fst].
    destruct I2 as [Ji Jt Jp Jn Jb Jc Jx].
    assert (Hpb : 0 < Personaje.id p /\ Personaje.nombre p <> []).
    { rewrite Forall_forall in Jb. apply Jb. exact Hin. }
    assert (Hpx : Personaje.xp p = xp_completadas db (Personaje.id p)).
    { rewrite Forall_forall in Jx. apply Jx. exact Hin. }
    constructor; try assumption.
    + rewrite update_personaje_ids. exact Jp.
    + rewrite (update_personaje_nombres db p); auto.
    + apply Forall_update_personaje; [exact Jb|exact Hpb].
    + cbn. eapply Forall_impl; [|exact Jc].
      intros r [Hm' [p0 Hp0]]. split; [exact Hm'|].
      rewrite get_personaje_update, Hp0.
      destruct (_ =? _); cbn; eauto.
    + apply Forall_update_personaje; [exact Jx|exact Hpx].
Qed.

Lemma completar_mision_inv2 (db : DB) (pid : Z) :
  Inv2 db -> Inv2 (fst (completar_mision pid db)).
Proof.
  intros I2.
  destruct (get_personaje db pid) as [p|] eqn:Hp;
    [|rewrite completar_sin_personaje by assumption; exact I2].
  destruct (truthy (Personaje.mision_activa_id p)) eqn:Ht;
    [|rewrite (completar_sin_activa db pid p) by assumption; exact I2].
  destruct (truthy_some _ Ht) as [a [Ha Hnz]].
  destruct (get_mision db a) as [m|] eqn:Hm;
    [|rewrite (completar_activa_perdida db pid a p) by assumption; exact I2].
  destruct (existsb (pk_completada pid a) (personaje_misiones_completadas db)) eqn:Hk;
    [rewrite (completar_ya_completada db pid a p m) by assumption; exact I2|].
  destruct (en_rango (Personaje.xp p + Mision.xp m)) eqn:Hrg;
    [|rewrite (completar_desborda db pid a p m) by assumption;
      exact I2].
  destruct (completar_ok db pid a p m Hp Ha Hnz Hm Hk Hrg)
    as [db' [-> [Hper [Hmis [Hcom Hpen]]]]]. cbn [fst].
  destruct (get_personaje_id db pid p Hp) as [Hid Hin].
  set (pf := {| Personaje.id := Personaje.id p;
                Personaje.nombre := Personaje.nombre p;
                Personaje.xp := Personaje.xp p + Mision.xp m;
                Personaje.mision_activa_id := select_siguiente db pid |}) in *.
  assert (Hgm : forall x, get_mision db' x = get_mision db x).
  { intros x. unfold get_mision. rewrite Hmis. reflexivity. }
  assert (Hgp : forall x, get_personaje db' x = get_personaje (update_personaje db pf) x).
  { intros x. unfold get_personaje. rewrite Hper. reflexivity. }
  assert (Hgp' : forall x p0, get_personaje db x = Some p0 ->
                              exists p1, get_personaje db' x = Some p1).
  { intros x p0 H0. rewrite Hgp, get_personaje_update, H0.
    destruct (_ =? _); cbn; eauto. }
  assert (Hcs : forall x, completed_set db' x =
            completed_set db x ++ (if pid =? x then [a] else [])).
  { intros x. unfold completed_set, completadas_de.
    rewrite Hcom, filter_app, map_app. cbn.
    destruct (pid =? x); reflexivity. }
  assert (Hrec : forall x, recompensa db' x = recompensa db x).
  { intros x. unfold recompensa. rewrite Hgm. reflexivity. }
  destruct I2 as [Ji Jt Jp Jn Jb Jc Jx].
  assert (Hpb : 0 < Personaje.id p /\ Personaje.nombre p <> []).
  { rewrite Forall_forall in Jb. apply Jb. exact Hin. }
  assert (Hpx : Personaje.xp p = xp_completadas db (Personaje.id p)).
  { rewrite Forall_forall in Jx. apply Jx. exact Hin. }
  constructor.
  - rewrite Hmis. exact Ji.
  - rewrite Hmis. exact Jt.
  - rewrite Hper, update_personaje_ids. exact Jp.
  - rewrite Hper, (update_personaje_nombres db p); auto.
  - rewrite Hper. apply Forall_update_personaje; [exact Jb|exact Hpb].
  - rewrite Hcom. apply Forall_app. split.
    + eapply Forall_impl; [|exact Jc].
      intros r [[m' Hm'] [p0 Hp0]]. split; [rewrite Hgm; eauto|eauto].
    + constructor; [|constructor]. split; cbn; [rewrite Hgm; eauto|eauto].
  - rewrite Hper, Forall_forall. intros q Hq.
    apply (update_personaje_rows db p pf Jp Hin eq_refl) in Hq.
    unfold xp_completadas. rewrite Hcs, map_app, suma_app.
    rewrite (map_ext _ _ Hrec (completed_set db (Personaje.id q))).
    destruct Hq as [->|[Hq Hne]].
    + cbn [Personaje.id Personaje.xp pf]. rewrite Hid, Z.eqb_refl. cbn.
      rewrite Hrec. unfold recompensa at 2. rewrite Hm.
      rewrite Hid in Hpx. unfold xp_completadas in Hpx. lia.
    + destruct (Z.eqb_spec pid (Personaje.id q)); [congruence|]. cbn.
      rewrite Forall_forall in Jx. specialize (Jx q Hq).
      unfold xp_completadas in Jx. lia.
Qed.

Lemma handle_inv2 (r : Request) (db : DB) : Inv2 db -> Inv2 (handle r db).
Proof.
  intros I. destruct r; cbn.
  - apply crear_personaje_inv2. exact I.
  - apply crear_mision_inv2. exact I.
  - rewrite listar_misiones_personaje_db. exact I.
  - rewrite listar_misiones_disponibles_db. exact I.
  - apply asignar_mision_inv2. exact I.
  - apply completar_mision_inv2. exact I.
Qed.

Lemma reachable_inv2 (db : DB) : reachable db -> Inv2 db.
Proof.
  induction 1 as [|r db _ IH]; [apply Inv2_empty|].
  apply handle_inv2. exact IH.
Qed.

(** ** The catalog and the characters are well formed *)

(** X1. In every store the API can produce, the quests of the catalog
    have pairwise distinct identifiers and pairwise distinct titles, a
    positive identifier, a positive reward and a title of at least 3
    characters, and every quest is the one found under its identifier. *)
Theorem catalogo_bien_formado (db : DB) :
  reachable db ->
  NoDup (List.map Mision.id (misiones db)) /\
  NoDup (List.map Mision.titulo (misiones db)) /\
  (forall m, In m (misiones db) ->
     0 < Mision.id m /\ 0 < Mision.xp m /\ 3 <= len (Mision.titulo m) /\
     get_mision db (Mision.id m) = Some m).
Proof.
  intros R. pose proof (reachable_inv db R) as I.
  pose proof (reachable_inv2 db R) as I2.
  split; [apply (inv_mision_ids db I2)|]. split; [apply (inv_titulos db I2)|].
  intros m Hin. pose proof (inv_misiones db I) as Im.
  rewrite Forall_forall in Im. destruct (Im m Hin) as [H1 [H2 H3]].
  repeat split; try assumption.
  apply get_mision_unico; [apply (inv_mision_ids db I2)|exact Hin].
Qed.

Lemma catalogo_bien_formado_ejemplo :
  reachable db_en_cola /\
  NoDup (List.map Mision.titulo (misiones db_en_cola)).
Proof.
  split; [exact reachable_db_en_cola|].
  exact (proj1 (proj2 (catalogo_bien_formado db_en_cola reachable_db_en_cola))).
Defined.

(** X2. In every store the API can produce, the characters have pairwise
    distinct identifiers and pairwise distinct names, a positive
    identifier and a non-empty name, and every character is the one
    found under its identifier. *)
Theorem personajes_bien_formados (db : DB) :
  reachable db ->
  NoDup (List.map Personaje.id (personajes db)) /\
  NoDup (List.map Personaje.nombre (personajes db)) /\
  (forall p, In p (personajes db) ->
     0 < Personaje.id p /\ Personaje.nombre p <> [] /\
     get_personaje db (Personaje.id p) = Some p).
Proof.
  intros R. pose proof (reachable_inv2 db R) as I2.
  split; [apply (inv_personaje_ids db I2)|]. split; [apply (inv_nombres db I2)|].
  intros p Hin. pose proof (inv_personaje_bien db I2) as Ib.
  rewrite Forall_forall in Ib. destruct (Ib p Hin) as [H1 H2].
  repeat split; try assumption.
  apply get_personaje_unico; [apply (inv_personaje_ids db I2)|exact Hin].
Qed.

Lemma personajes_bien_formados_ejemplo :
  reachable db_en_cola /\
  NoDup (List.map Personaje.nombre (personajes db_en_cola)).
Proof.
  split; [exact reachable_db_en_cola|].
  exact (proj1 (proj2 (personajes_bien_formados db_en_cola reachable_db_en_cola))).
Defined.

(** X3. In every store the API can produce, the experience of a
    character is the sum of the rewards of the quests in its completed
    set. *)
Theorem xp_es_suma_de_recompensas (db : DB) (pid : Z) (p : Personaje.t) :
  reachable db ->
  get_personaje db pid = Some p ->
  Personaje.xp p = xp_completadas db pid.
Proof.
  intros R Hp. pose proof (reachable_inv2 db R) as I2.
  destruct (get_personaje_id db pid p Hp) as [Hid Hin].
  pose proof (inv_xp_suma db I2) as Ix. rewrite Forall_forall in Ix.
  rewrite <- Hid. apply Ix. exact Hin.
Qed.

Lemma xp_es_suma_de_recompensas_ejemplo :
  reachable (run [CompletarMision 1; CompletarMision 1] db_en_cola) /\
  xp_total (run [CompletarMision 1; CompletarMision 1] db_en_cola) 1 =
  Some (xp_completadas (run [CompletarMision 1; CompletarMision 1] db_en_cola) 1).
Proof.
  assert (R : reachable (run [CompletarMision 1; CompletarMision 1] db_en_cola)).
  { apply reachable_run. exact reachable_db_en_cola. }
  split; [exact R|].
  exact (f_equal Some
           (xp_es_suma_de_recompensas _ 1
              {| Personaje.id := 1; Personaje.nombre := lit "Ana";
                 Personaje.xp := 110; Personaje.mision_activa_id := None |}
              R eq_refl)).
Defined.

(** X4. In every store the API can produce, a character without an
    active quest has an empty pending queue, and the active quest, the
    queued quests and the completed quests of a character are quests of
    the catalog; queued and completed rows belong to existing
    characters. *)
Theorem registro_referencia_catalogo (db : DB) (pid : Z) :
  reachable db ->
  (active_quest db pid = None -> pending_queue db pid = []) /\
  (forall a, active_quest db pid = Some a -> exists m, get_mision db a = Some m) /\
  (forall x, In x (pending_queue db pid) ->
     (exists m, get_mision db x = Some m) /\
     (exists p, get_personaje db pid = Some p)) /\
  (forall x, In x (completed_set db pid) ->
     (exists m, get_mision db x = Some m) /\
     (exists p, get_personaje db pid = Some p)).
Proof.
  intros R. pose proof (reachable_inv db R) as I.
  pose proof (reachable_inv2 db R) as I2.
  assert (Hpen : forall x, In x (pending_queue db pid) ->
            (exists m, get_mision db x = Some m) /\
            (exists p, get_personaje db pid = Some p /\
                       truthy (Personaje.mision_activa_id p) = true)).
  { intros x Hx. apply pending_queue_In in Hx. destruct Hx as [r [Hr [E1 E2]]].
    pose proof (inv_pendientes db I) as Iq. rewrite Forall_forall in Iq.
    destruct (Iq r Hr) as [Hm Hp]. rewrite E1 in Hp. rewrite E2 in Hm. auto. }
  split; [|split; [|split]].
  - intros Ha. destruct (pending_queue db pid) as [|x l] eqn:E; [reflexivity|].
    exfalso. destruct (Hpen x (or_introl eq_refl)) as [_ [p [Hp Ht]]].
    unfold active_quest in Ha. rewrite Hp in Ha. rewrite Ha in Ht. discriminate.
  - intros a. unfold active_quest.
    destruct (get_personaje db pid) as [p|] eqn:Hp; [|discriminate].
    intros Ha. apply (personaje_en_tabla_ok db pid p I Hp). exact Ha.
  - intros x Hx. destruct (Hpen x Hx) as [Hm [p [Hp _]]]. eauto.
  - intros x Hx. apply (completada_en_catalogo db pid x I2 Hx).
Qed.

Lemma registro_referencia_catalogo_ejemplo :
  reachable db_inicial /\
  (active_quest db_inicial 1 = None -> pending_queue db_inicial 1 = []).
Proof.
  assert (R : reachable db_inicial).
  { unfold db_inicial. apply reachable_run. constructor. }
  split; [exact R|].
  exact (proj1 (registro_referencia_catalogo db_inicial 1 R)).
Defined.

(** ** When the engine endpoints succeed *)

Lemma asignar_pendiente_error (db : DB) (pid mid : Z) :
  Inv db ->
  In mid (pending_queue db pid) ->
  asignar_mision pid mid db =
  (db, inl (error_asignar (IntegrityError "personaje_misiones_pendientes"))).
Proof.
  intros I Hin.
  pose proof Hin as Hk. apply pk_pendiente_In in Hk.
  apply pending_queue_In in Hin. destruct Hin as [r [Hr [E1 E2]]].
  pose proof (inv_pendientes db I) as Iq. rewrite Forall_forall in Iq.
  destruct (Iq r Hr) as [[m Hm] [p [Hp Ht]]]. rewrite E1 in Hp. rewrite E2 in Hm.
  apply (asignar_repetida db pid mid p m); assumption.
Qed.


(** X5. In every store the API can produce, [asignar_mision] succeeds
    exactly when the character exists, the quest is in the catalog and
    the quest is not already in the character's pending queue; every
    failure carries status 400 (also the two not-found errors, raised
    with 404) and leaves the store as it was. *)
Theorem asignar_mision_exito (db : DB) (pid mid : Z) :
  reachable db ->
  ((exists db' res, asignar_mision pid mid db = (db', inr res)) <->
   (exists p, get_personaje db pid = Some p) /\
   (exists m, get_mision db mid = Some m) /\
   ~ In mid (pending_queue db pid)) /\
  (forall db' e, asignar_mision pid mid db = (db', inl e) ->
     db' = db /\ exists d, e = HTTPException 400 d).
Proof.
  intros R. pose proof (reachable_inv db R) as I. split.
  - split.
    + intros [db' [res H]].
      destruct (get_personaje db pid) as [p|] eqn:Hp;
        [|rewrite asignar_sin_personaje in H by assumption; discriminate].
      destruct (get_mision db mid) as [m|] eqn:Hm;
        [|rewrite (asignar_sin_mision db pid mid p) in H by assumption;
          discriminate].
      split; [eauto|]. split; [eauto|].
      intros Hin.
      rewrite (asignar_pendiente_error db pid mid I Hin) in H.
      discriminate.
    + intros [[p Hp] [[m Hm] Hn]].
      destruct (truthy (Personaje.mision_activa_id p)) eqn:Ht.
      * assert (Hk : existsb (pk_pendiente pid mid)
                       (personaje_misiones_pendientes db) = false).
        { apply not_true_is_false. intros Hk. apply Hn, pk_pendiente_In, Hk. }
        rewrite (asignar_en_cola db pid mid p m Hp Hm Ht Hk). eauto.
      * rewrite (asignar_activa db pid mid p m Hp Hm Ht). eauto.
  - intros db' e. unfold asignar_mision, try_except.
    destruct (bind _ _ db) as [e0|[a db0]]; intros H; [|discriminate].
    injection H as <- <-. eauto.
Qed.

(** X6. In every store the API can produce, [completar_mision] succeeds
    exactly when the character exists, has an active quest, that quest
    is not already in its completed set, and the character's experience
    plus the reward of the quest is at most the largest INTEGER value
    of the store; every failure carries status 500 (also the not-found
    error raised with 404 and the no-active-quest error raised with 400)
    and leaves the store as it was. *)
Theorem completar_mision_exito (db : DB) (pid : Z) :
  reachable db ->
  ((exists db' res, completar_mision pid db = (db', inr res)) <->
   exists p a, get_personaje db pid = Some p /\
               Personaje.mision_activa_id p = Some a /\
               ~ In a (completed_set db pid) /\
               Personaje.xp p + recompensa db a <= INT64_MAX) /\
  (forall db' e, completar_mision pid db = (db', inl e) ->
     db' = db /\ exists d, e = HTTPException 500 d).
Proof.
  intros R. pose proof (reachable_inv db R) as I. split.
  - split.
    + intros [db' [res H]].
      destruct (get_personaje db pid) as [p|] eqn:Hp;
        [|rewrite completar_sin_personaje in H by assumption; discriminate].
      destruct (truthy (Personaje.mision_activa_id p)) eqn:Ht;
        [|rewrite (completar_sin_activa db pid p) in H by assumption;
          discriminate].
      destruct (truthy_some _ Ht) as [a [Ha Hnz]].
      exists p, a. split; [reflexivity|]. split; [exact Ha|].
      destruct (get_mision db a) as [m|] eqn:Hm;
        [|rewrite (completar_activa_perdida db pid a p) in H by assumption;
          discriminate].
      destruct (existsb (pk_completada pid a) (personaje_misiones_completadas db))
        eqn:Hk;
        [rewrite (completar_ya_completada db pid a p m) in H by assumption;
         discriminate|].
      split; [intros Hin; apply pk_completada_In in Hin; congruence|].
      unfold recompensa. rewrite Hm.
      destruct (Z.le_gt_cases (Personaje.xp p + Mision.xp m) INT64_MAX)
        as [Hmax|Hmax]; [exact Hmax|].
      rewrite (completar_desborda db pid a p m) in H; try assumption;
        [discriminate|].
      apply fuera_de_rango_positivo. lia.
    + intros [p [a [Hp [Ha [Hn Hmax]]]]].
      pose proof (reachable_activa_positiva db pid a p I Hp Ha) as Hpos.
      destruct (personaje_en_tabla_ok db pid p I Hp) as [Hxp0 Hex].
      destruct (Hex a Ha) as [m Hm].
      destruct (mision_en_catalogo_positiva db a m I Hm) as [_ Hxm].
      assert (Hk : existsb (pk_completada pid a)
                     (personaje_misiones_completadas db) = false).
      { apply not_true_is_false. intros Hk. apply Hn, pk_completada_In, Hk. }
      assert (Hnz : a <> 0) by lia.
      assert (Hrg : en_rango (Personaje.xp p + Mision.xp m) = true).
      { unfold recompensa in Hmax. rewrite Hm in Hmax.
        apply en_rango_positivo; lia. }
      destruct (completar_ok db pid a p m Hp Ha Hnz Hm Hk Hrg) as [db' [E _]].
      rewrite E. eauto.
  - intros db' e. unfold completar_mision, try_except.
    destruct (bind _ _ db) as [e0|[a db0]]; intros H; [|discriminate].
    injection H as <- <-. eauto.
Qed.

Lemma asignar_mision_exito_ejemplo :
  reachable db_en_cola /\
  exists db' res, asignar_mision 1 3 db_en_cola = (db', inr res).
Proof.
  split; [exact reachable_db_en_cola|].
  apply (proj1 (asignar_mision_exito db_en_cola 1 3 reachable_db_en_cola)).
  split; [eexists; reflexivity|]. split; [eexists; reflexivity|].
  cbn. intros [H|[]]. discriminate H.
Defined.

Lemma completar_mision_exito_ejemplo :
  reachable db_en_cola /\
  exists db' res, completar_mision 1 db_en_cola = (db', inr res).
Proof.
  split; [exact reachable_db_en_cola|].
  apply (proj1 (completar_mision_exito db_en_cola 1 reachable_db_en_cola)).
  do 2 eexists. split; [reflexivity|]. split; [reflexivity|].
  split; [cbn; intros []|vm_compute; discriminate].
Defined.

(** ** Creating, then looking up *)

Lemma str_eqb_eq (a b : str) : str_eqb a b = true -> a = b.
Proof.
  unfold str_eqb. destruct (list_eq_dec N.eq_dec a b); [auto|discriminate].
Qed.

Lemma titulo_libre_first (db : DB) (titulo : str) :
  ~ In titulo (List.map Mision.titulo (misiones db)) ->
  first_mision_titulo db titulo = None.
Proof.
  intros Hn. unfold first_mision_titulo.
  destruct (find _ (misiones db)) as [m|] eqn:F; [|reflexivity].
  exfalso. apply find_some in F. destruct F as [Hin E].
  apply str_eqb_eq in E. apply Hn. rewrite <- E. apply in_map. exact Hin.
Qed.



Lemma crear_mision_repetida (db : DB) (titulo : str) (xp : Z) (m : Mision.t) :
  3 <= len titulo -> 0 < xp ->
  first_mision_titulo db titulo = Some m ->
  crear_mision titulo xp db =
  (db, inl (HTTPException 400
              (Envuelto "Error creando misión: "
                 (HTTPException 400
                    (Texto "Ya existe una misión con este título"))))).
Proof.
  intros Hl Hx H. unfold crear_mision, validar_crear_mision.
  destruct (Z.ltb_spec (len titulo) 3); [lia|].
  destruct (Z.leb_spec xp 0); [lia|]. cbn.
  run_endpoint. rewrite H. reflexivity.
Qed.

Lemma find_snoc_nuevo {A : Type} (f : A -> bool) (l : list A) (x : A) :
  (forall y, In y l -> f y = false) -> f x = true -> find f (l ++ [x]) = Some x.
Proof.
  induction l as [|z l IH]; cbn; intros Hl Hx.
  - rewrite Hx. reflexivity.
  - rewrite (Hl z (or_introl eq_refl)). apply IH; [|exact Hx].
    intros y Hy. apply Hl. right. exact Hy.
Qed.

Lemma find_clave_nueva {A : Type} (k : A -> Z) (l : list A) (x : A) :
  ~ In (k x) (List.map k l) ->
  find (fun y => k y =? k x) (l ++ [x]) = Some x.
Proof.
  intros Hn. apply find_snoc_nuevo; [|apply Z.eqb_refl].
  intros y Hy. apply Z.eqb_neq. intros E. apply Hn. rewrite <- E.
  apply in_map. exact Hy.
Qed.

(** X7. For a title of at least 3 characters that no quest of the
    catalog carries and a positive reward: when the reward is at most
    the largest INTEGER value of the store, [crear_mision] succeeds, the
    quest is appended to the catalog under an identifier no quest had,
    it is the quest then found under that identifier, every quest found
    before is still found, and creating the same title once more, with
    any positive reward, fails with the duplicate-title error; when the
    reward is larger, [crear_mision] fails with the overflow error,
    status 400, and the store is left as it was. *)
Theorem crear_mision_crea (db : DB) (titulo : str) (xp : Z) :
  3 <= len titulo -> 0 < xp ->
  ~ In titulo (List.map Mision.titulo (misiones db)) ->
  (xp <= INT64_MAX ->
   exists db' c,
     crear_mision titulo xp db = (db', inr c) /\
     mc_titulo c = titulo /\ mc_xp c = xp /\
     ~ In (mc_id c) (List.map Mision.id (misiones db)) /\
     misiones db' =
       misiones db ++
       [ {| Mision.id := mc_id c; Mision.titulo := titulo; Mision.xp := xp |} ] /\
     get_mision db' (mc_id c) =
       Some {| Mision.id := mc_id c; Mision.titulo := titulo; Mision.xp := xp |} /\
     (forall a m, get_mision db a = Some m -> get_mision db' a = Some m) /\
     (forall xp', 0 < xp' ->
        crear_mision titulo xp' db' =
        (db', inl (HTTPException 400
                     (Envuelto "Error creando misión: "
                        (HTTPException 400
                           (Texto "Ya existe una misión con este título"))))))) /\
  (INT64_MAX < xp ->
   crear_mision titulo xp db =
   (db, inl (HTTPException 400
               (Envuelto "Error creando misión: " OverflowError)))).
Proof.
  intros Hl Hx Hn.
  pose proof (titulo_libre_first db titulo Hn) as F.
  split; [|intros Hmax; apply crear_mision_desborda; assumption].
  intros Hmax.
  rewrite (crear_mision_ok db titulo xp Hl Hx Hmax F).
  do 2 eexists. split; [reflexivity|]. cbn.
  pose proof (next_rowid_not_in (List.map Mision.id (misiones db))) as Hfresh.
  repeat split.
  - exact Hfresh.
  - unfold get_mision. cbn.
    apply (find_clave_nueva Mision.id (misiones db)
             {| Mision.id := next_rowid (List.map Mision.id (misiones db));
                Mision.titulo := titulo; Mision.xp := xp |}).
    exact Hfresh.
  - intros a m Hm. unfold get_mision in *. cbn. apply find_app_some. exact Hm.
  - intros xp' Hx'.
    set (db' := {| personajes := personajes db; misiones := _;
                   personaje_misiones_completadas := _;
                   personaje_misiones_pendientes := _ |}).
    assert (Hu : exists m, first_mision_titulo db' titulo = Some m).
    { apply titulo_usado_first. eexists. split.
      - cbn. apply in_or_app. right. left. reflexivity.
      - reflexivity. }
    destruct Hu as [m Hm].
    apply (crear_mision_repetida db' titulo xp' m Hl Hx' Hm).
Qed.

Lemma crear_mision_crea_ejemplo :
  3 <= len (lit "Torre") /\ 0 < 5 /\ 5 <= INT64_MAX /\
  ~ In (lit "Torre") (List.map Mision.titulo (misiones db_en_cola)) /\
  exists db' c, crear_mision (lit "Torre") 5 db_en_cola = (db', inr c).
Proof.
  assert (H1 : 3 <= len (lit "Torre")) by (cbn; lia).
  assert (H2 : 0 < 5) by lia.
  assert (H4 : 5 <= INT64_MAX) by (unfold INT64_MAX; lia).
  assert (H3 : ~ In (lit "Torre") (List.map Mision.titulo (misiones db_en_cola))).
  { cbn. intros [H|[H|[H|[]]]]; discriminate H. }
  split; [exact H1|]. split; [exact H2|]. split; [exact H4|]. split; [exact H3|].
  destruct (proj1 (crear_mision_crea db_en_cola (lit "Torre") 5 H1 H2 H3) H4)
    as [db' [c [E _]]].
  eauto.
Defined.





Lemma cola_vacia_sin_activa (db : DB) (pid : Z) :
  Inv db -> active_quest db pid = None -> pending_queue db pid = [].
Proof.
  intros I Ha. destruct (pending_queue db pid) as [|x l] eqn:E; [reflexivity|].
  exfalso.
  assert (Hx : In x (pending_queue db pid)) by (rewrite E; left; reflexivity).
  apply pending_queue_In in Hx. destruct Hx as [r [Hr [E1 E2]]].
  pose proof (inv_pendientes db I) as Iq. rewrite Forall_forall in Iq.
  destruct (Iq r Hr) as [_ [p [Hp Ht]]]. rewrite E1 in Hp.
  unfold active_quest in Ha. rewrite Hp in Ha. rewrite Ha in Ht. discriminate.
Qed.

(** X10. In every store the API can produce, a character that
    [crear_personaje] has just created has no active quest, an empty
    pending queue and an empty completed set, and
    [listar_misiones_disponibles] offers it the whole catalog. *)
Theorem personaje_nuevo_todo_disponible
  (db db' : DB) (nombre : option str) (c : PersonajeCreado) :
  reachable db ->
  crear_personaje nombre db = (db', inr c) ->
  active_quest db' (pc_id c) = None /\
  pending_queue db' (pc_id c) = [] /\
  completed_set db' (pc_id c) = [] /\
  listar_misiones_disponibles (pc_id c) db' =
    (db', inr (List.map mision_json (misiones db'))).
Proof.
  intros R H.
  assert (R' : reachable db').
  { replace db' with (handle (CrearPersonaje nombre) db)
      by (cbn; rewrite H; reflexivity).
    constructor. exact R. }
  pose proof (reachable_inv db' R') as I'.
  pose proof (reachable_inv2 db R) as I2.
  pose proof (completed_set_nuevo db I2) as Hcs.
  destruct (crear_personaje_cases db nombre) as [E|[n [-> [Hne F]]]].
  { exfalso. destruct nombre as [[|ch n]|]; try discriminate H.
    destruct (first_personaje_nombre db (ch :: n)) as [p|] eqn:F.
    - rewrite (crear_personaje_repetido db (ch :: n) p) in H;
        [discriminate|discriminate|exact F].
    - rewrite (crear_personaje_ok db (ch :: n)) in E; [|discriminate|exact F].
      cbn in E.
      apply (f_equal (fun d => List.length (personajes d))) in E.
      cbn in E. rewrite length_app in E. cbn in E. lia. }
  rewrite (crear_personaje_ok db n Hne F) in H. injection H as <- <-.
  cbn [pc_id].
  set (nuevo := {| Personaje.id := next_rowid (List.map Personaje.id (personajes db));
                   Personaje.nombre := n; Personaje.xp := 0;
                   Personaje.mision_activa_id := None |}) in *.
  set (db' := snd (add_personaje db n 0)) in *.
  assert (Hg : get_personaje db' (Personaje.id nuevo) = Some nuevo).
  { apply (get_personaje_nuevo db n 0). }
  assert (Ha : active_quest db' (Personaje.id nuevo) = None).
  { unfold active_quest. rewrite Hg. reflexivity. }
  assert (Hq : pending_queue db' (Personaje.id nuevo) = []).
  { apply cola_vacia_sin_activa; assumption. }
  assert (Hc : completed_set db' (Personaje.id nuevo) = []) by exact Hcs.
  change (next_rowid (List.map Personaje.id (personajes db)))
    with (Personaje.id nuevo).
  split; [exact Ha|]. split; [exact Hq|]. split; [exact Hc|].
  assert (Hz : Personaje.mision_activa_id nuevo <> Some 0) by discriminate.
  pose proof (listar_misiones_disponibles_ok db' (Personaje.id nuevo) nuevo Hg Hz)
    as L.
  etransitivity; [exact L|].
  do 3 f_equal. unfold spec_list_available. rewrite Ha, Hq, Hc.
  apply filter_all. intros m _. reflexivity.
Qed.

Lemma personaje_nuevo_todo_disponible_ejemplo :
  reachable db_en_cola /\
  listar_misiones_disponibles 2
    (fst (crear_personaje (Some (lit "Luis")) db_en_cola)) =
  (fst (crear_personaje (Some (lit "Luis")) db_en_cola),
   inr (List.map mision_json
          (misiones (fst (crear_personaje (Some (lit "Luis")) db_en_cola))))).
Proof.
  split; [exact reachable_db_en_cola|].
  exact (proj2 (proj2 (proj2
           (personaje_nuevo_todo_disponible db_en_cola
              (fst (crear_personaje (Some (lit "Luis")) db_en_cola))
              (Some (lit "Luis"))
              {| pc_id := 2; pc_nombre := lit "Luis"; pc_xp := 0 |}
              reachable_db_en_cola eq_refl)))).
Defined.

(** ** What a request leaves alone *)

Lemma prefijo_refl {A : Type} (l : list A) : prefijo l l.
Proof.
  exists []. rewrite app_nil_r. reflexivity.
Qed.

Lemma update_personaje_id_nombre (db : DB) (p p' : Personaje.t) :
  NoDup (List.map Personaje.id (personajes db)) ->
  In p (personajes db) ->
  Personaje.id p' = Personaje.id p ->
  Personaje.nombre p' = Personaje.nombre p ->
  List.map (fun q => (Personaje.id q, Personaje.nombre q))
           (personajes (update_personaje db p')) =
  List.map (fun q => (Personaje.id q, Personaje.nombre q)) (personajes db).
Proof.
  intros Hn Hp E En. cbn. rewrite map_map. apply map_ext_in. intros q Hq.
  rewrite E.
  destruct (Z.eqb_spec (Personaje.id q) (Personaje.id p)) as [E0|E0];
    [|reflexivity].
  rewrite E, En.
  rewrite (unico_por_clave Personaje.id (personajes db) q p Hn Hq Hp E0).
  reflexivity.
Qed.

(** X11. In every store the API can produce, no request removes or
    changes a quest of the catalog, removes or changes a row of the
    completed table, or removes a character or changes its identifier
    or name: after the request each of these lists is the list before,
    possibly with rows added at the end. *)
Theorem tablas_solo_crecen (db : DB) (r : Request) :
  reachable db ->
  prefijo (misiones db) (misiones (handle r db)) /\
  prefijo (personaje_misiones_completadas db)
          (personaje_misiones_completadas (handle r db)) /\
  prefijo (List.map (fun q => (Personaje.id q, Personaje.nombre q)) (personajes db))
          (List.map (fun q => (Personaje.id q, Personaje.nombre q))
                    (personajes (handle r db))).
Proof.
  intros R. pose proof (reachable_inv2 db R) as I2.
  pose proof (inv_personaje_ids db I2) as Jp.
  assert (Hsame : prefijo (misiones db) (misiones db) /\
                  prefijo (personaje_misiones_completadas db)
                          (personaje_misiones_completadas db) /\
                  prefijo (List.map (fun q => (Personaje.id q, Personaje.nombre q))
                                    (personajes db))
                          (List.map (fun q => (Personaje.id q, Personaje.nombre q))
                                    (personajes db))).
  { repeat split; apply prefijo_refl. }
  destruct r as [nombre|titulo xp|pid|pid|pid mid|pid]; cbn [handle].
  - destruct (crear_personaje_cases db nombre) as [->|[n [-> [Hne F]]]];
      [exact Hsame|].
    rewrite (crear_personaje_ok db n Hne F). cbn.
    repeat split; try apply prefijo_refl.
    rewrite map_app. eexists. reflexivity.
  - destruct (crear_mision_cases db titulo xp) as [->|[Hl [Hx [Hmax F]]]];
      [exact Hsame|].
    rewrite (crear_mision_ok db titulo xp Hl Hx Hmax F). cbn.
    repeat split; try apply prefijo_refl.
    eexists. reflexivity.
  - rewrite listar_misiones_personaje_db. exact Hsame.
  - rewrite listar_misiones_disponibles_db. exact Hsame.
  - destruct (get_personaje db pid) as [p|] eqn:Hp;
      [|rewrite asignar_sin_personaje by assumption; exact Hsame].
    destruct (get_mision db mid) as [m|] eqn:Hm;
      [|rewrite (asignar_sin_mision db pid mid p) by assumption; exact Hsame].
    destruct (get_personaje_id db pid p Hp) as [Hid Hin].
    destruct (truthy (Personaje.mision_activa_id p)) eqn:Ht.
    + destruct (existsb (pk_pendiente pid mid) (personaje_misiones_pendientes db)) eqn:Hk.
      * rewrite (asignar_repetida db pid mid p m) by assumption. exact Hsame.
      * rewrite (asignar_en_cola db pid mid p m) by assumption. exact Hsame.
    + rewrite (asignar_activa db pid mid p m) by assumption. cbn [fst].
      rewrite (update_personaje_id_nombre db p); auto.
  - destruct (get_personaje db pid) as [p|] eqn:Hp;
      [|rewrite completar_sin_personaje by assumption; exact Hsame].
    destruct (truthy (Personaje.mision_activa_id p)) eqn:Ht;
      [|rewrite (completar_sin_activa db pid p) by assumption; exact Hsame].
    destruct (truthy_some _ Ht) as [a [Ha Hnz]].
    destruct (get_mision db a) as [m|] eqn:Hm;
      [|rewrite (completar_activa_perdida db pid a p) by assumption; exact Hsame].
    destruct (existsb (pk_completada pid a) (personaje_misiones_completadas db)) eqn:Hk;
      [rewrite (completar_ya_completada db pid a p m) by assumption; exact Hsame|].
    destruct (en_rango (Personaje.xp p + Mision.xp m)) eqn:Hrg;
      [|rewrite (completar_desborda db pid a p m) by assumption;
        exact Hsame].
    destruct (completar_ok db pid a p m Hp Ha Hnz Hm Hk Hrg)
      as [db' [-> [Hper [Hmis [Hcom Hpen]]]]]. cbn [fst].
    destruct (get_personaje_id db pid p Hp) as [Hid Hin].
    rewrite Hmis, Hcom, Hper.
    rewrite (update_personaje_id_nombre db p); auto.
    repeat split; try apply prefijo_refl.
    eexists. reflexivity.
Qed.

Lemma tablas_solo_crecen_ejemplo :
  reachable db_en_cola /\
  prefijo (personaje_misiones_completadas db_en_cola)
          (personaje_misiones_completadas (handle (CompletarMision 1) db_en_cola)).
Proof.
  split; [exact reachable_db_en_cola|].
  exact (proj1 (proj2 (tablas_solo_crecen db_en_cola (CompletarMision 1)
                         reachable_db_en_cola))).
Defined.

Lemma registro_intacto (db db' : DB) (pid : Z) :
  get_personaje db' pid = get_personaje db pid ->
  pendientes_de db' pid = pendientes_de db pid ->
  completadas_de db' pid = completadas_de db pid ->
  active_quest db' pid = active_quest db pid /\
  xp_total db' pid = xp_total db pid /\
  pending_queue db' pid = pending_queue db pid /\
  completed_set db' pid = completed_set db pid.
Proof.
  intros E1 E2 E3.
  unfold active_quest, xp_total, pending_queue, completed_set.
  rewrite E1, E2, E3. auto.
Qed.

(** X12. [asignar_mision] and [completar_mision] called for one
    character leave the record of every other character as it was: its
    active quest, its experience, its pending queue and its completed
    set. *)
Theorem otros_registros_intactos (db : DB) (r : Request) (pid pid' : Z) :
  (exists mid, r = AsignarMision pid mid) \/ r = CompletarMision pid ->
  pid' <> pid ->
  active_quest (handle r db) pid' = active_quest db pid' /\
  xp_total (handle r db) pid' = xp_total db pid' /\
  pending_queue (handle r db) pid' = pending_queue db pid' /\
  completed_set (handle r db) pid' = completed_set db pid'.
Proof.
  intros Hr Hne. apply registro_intacto; destruct Hr as [[mid ->]| ->]; cbn [handle].
  - destruct (get_personaje db pid) as [p|] eqn:Hp;
      [|rewrite asignar_sin_personaje by assumption; reflexivity].
    destruct (get_mision db mid) as [m|] eqn:Hm;
      [|rewrite (asignar_sin_mision db pid mid p) by assumption; reflexivity].
    destruct (get_personaje_id db pid p Hp) as [Hid Hin].
    destruct (truthy (Personaje.mision_activa_id p)) eqn:Ht.
    + destruct (existsb (pk_pendiente pid mid) (personaje_misiones_pendientes db)) eqn:Hk.
      * rewrite (asignar_repetida db pid mid p m) by assumption. reflexivity.
      * rewrite (asignar_en_cola db pid mid p m) by assumption. reflexivity.
    + rewrite (asignar_activa db pid mid p m) by assumption. cbn [fst].
      rewrite get_personaje_update. cbn [Personaje.id set_mision_activa_id].
      destruct (Z.eqb_spec pid' (Personaje.id p)); [congruence|reflexivity].
  - destruct (get_personaje db pid) as [p|] eqn:Hp;
      [|rewrite completar_sin_personaje by assumption; reflexivity].
    destruct (truthy (Personaje.mision_activa_id p)) eqn:Ht;
      [|rewrite (completar_sin_activa db pid p) by assumption; reflexivity].
    destruct (truthy_some _ Ht) as [a [Ha Hnz]].
    destruct (get_mision db a) as [m|] eqn:Hm;
      [|rewrite (completar_activa_perdida db pid a p) by assumption; reflexivity].
    destruct (existsb (pk_completada pid a) (personaje_misiones_completadas db)) eqn:Hk;
      [rewrite (completar_ya_completada db pid a p m) by assumption; reflexivity|].
    destruct (en_rango (Personaje.xp p + Mision.xp m)) eqn:Hrg;
      [|rewrite (completar_desborda db pid a p m) by assumption;
        reflexivity].
    destruct (completar_ok db pid a p m Hp Ha Hnz Hm Hk Hrg)
      as [db' [-> [Hper _]]]. cbn [fst].
    destruct (get_personaje_id db pid p Hp) as [Hid Hin].
    unfold get_personaje at 1. rewrite Hper.
    fold (get_personaje
            (update_personaje db
               {| Personaje.id := Personaje.id p;
                  Personaje.nombre := Personaje.nombre p;
                  Personaje.xp := Personaje.xp p + Mision.xp m;
                  Personaje.mision_activa_id := select_siguiente db pid |}) pid').
    rewrite get_personaje_update. cbn [Personaje.id].
    destruct (Z.eqb_spec pid' (Personaje.id p)); [congruence|reflexivity].
  - destruct (get_personaje db pid) as [p|] eqn:Hp;
      [|rewrite asignar_sin_personaje by assumption; reflexivity].
    destruct (get_mision db mid) as [m|] eqn:Hm;
      [|rewrite (asignar_sin_mision db pid mid p) by assumption; reflexivity].
    destruct (truthy (Personaje.mision_activa_id p)) eqn:Ht.
    + destruct (existsb (pk_pendiente pid mid) (personaje_misiones_pendientes db)) eqn:Hk.
      * rewrite (asignar_repetida db pid mid p m) by assumption. reflexivity.
      * rewrite (asignar_en_cola db pid mid p m) by assumption.
        unfold pendientes_de. cbn. rewrite filter_app. cbn.
        destruct (Z.eqb_spec pid pid'); [congruence|]. apply app_nil_r.
    + rewrite (asignar_activa db pid mid p m) by assumption. reflexivity.
  - destruct (get_personaje db pid) as [p|] eqn:Hp;
      [|rewrite completar_sin_personaje by assumption; reflexivity].
    destruct (truthy (Personaje.mision_activa_id p)) eqn:Ht;
      [|rewrite (completar_sin_activa db pid p) by assumption; reflexivity].
    destruct (truthy_some _ Ht) as [a [Ha Hnz]].
    destruct (get_mision db a) as [m|] eqn:Hm;
      [|rewrite (completar_activa_perdida db pid a p) by assumption; reflexivity].
    destruct (existsb (pk_completada pid a) (personaje_misiones_completadas db)) eqn:Hk;
      [rewrite (completar_ya_completada db pid a p m) by assumption; reflexivity|].
    destruct (en_rango (Personaje.xp p + Mision.xp m)) eqn:Hrg;
      [|rewrite (completar_desborda db pid a p m) by assumption;
        reflexivity].
    destruct (completar_ok db pid a p m Hp Ha Hnz Hm Hk Hrg)
      as [db' [-> [_ [_ [_ Hpen]]]]]. cbn [fst].
    unfold pendientes_de. rewrite Hpen.
    destruct (select_siguiente db pid) as [s|]; [|reflexivity].
    rewrite filter_filter_comm. apply filter_all.
    intros x Hx. apply filter_In in Hx. destruct Hx as [_ Hx].
    apply Z.eqb_eq in Hx. unfold pk_pendiente.
    destruct (Z.eqb_spec (Pendiente.personaje_id x) pid); [congruence|reflexivity].
  - destruct (get_personaje db pid) as [p|] eqn:Hp;
      [|rewrite asignar_sin_personaje by assumption; reflexivity].
    destruct (get_mision db mid) as [m|] eqn:Hm;
      [|rewrite (asignar_sin_mision db pid mid p) by assumption; reflexivity].
    destruct (truthy (Personaje.mision_activa_id p)) eqn:Ht.
    + destruct (existsb (pk_pendiente pid mid) (personaje_misiones_pendientes db)) eqn:Hk.
      * rewrite (asignar_repetida db pid mid p m) by assumption. reflexivity.
      * rewrite (asignar_en_cola db pid mid p m) by assumption. reflexivity.
    + rewrite (asignar_activa db pid mid p m) by assumption. reflexivity.
  - destruct (get_personaje db pid) as [p|] eqn:Hp;
      [|rewrite completar_sin_personaje by assumption; reflexivity].
    destruct (truthy (Personaje.mision_activa_id p)) eqn:Ht;
      [|rewrite (completar_sin_activa db pid p) by assumption; reflexivity].
    destruct (truthy_some _ Ht) as [a [Ha Hnz]].
    destruct (get_mision db a) as [m|] eqn:Hm;
      [|rewrite (completar_activa_perdida db pid a p) by assumption; reflexivity].
    destruct (existsb (pk_completada pid a) (personaje_misiones_completadas db)) eqn:Hk;
      [rewrite (completar_ya_completada db pid a p m) by assumption; reflexivity|].
    destruct (en_rango (Personaje.xp p + Mision.xp m)) eqn:Hrg;
      [|rewrite (completar_desborda db pid a p m) by assumption;
        reflexivity].
    destruct (completar_ok db pid a p m Hp Ha Hnz Hm Hk Hrg)
      as [db' [-> [_ [_ [Hcom _]]]]]. cbn [fst].
    unfold completadas_de. rewrite Hcom, filter_app. cbn.
    destruct (Z.eqb_spec pid pid'); [congruence|]. apply app_nil_r.
Qed.

Lemma otros_registros_intactos_ejemplo :
  xp_total (handle (CompletarMision 1)
              (fst (crear_personaje (Some (lit "Luis")) db_en_cola))) 2 =
  xp_total (fst (crear_personaje (Some (lit "Luis")) db_en_cola)) 2.
Proof.
  refine (proj1 (proj2 (otros_registros_intactos
            (fst (crear_personaje (Some (lit "Luis")) db_en_cola))
            (CompletarMision 1) 1 2 (or_intror eq_refl) _))).
  discriminate.
Defined.

(** ** The listings *)

Lemma filter_ninguno {A : Type} (f : A -> bool) (l : list A) :
  (forall x, In x l -> f x = false) -> filter f l = [].
Proof.
  induction l as [|x l IH]; cbn; intros H; [reflexivity|].
  rewrite (H x (or_introl eq_refl)). apply IH.
  intros y Hy. apply H. right. exact Hy.
Qed.

Lemma filter_clave_unica {A : Type} (k : A -> Z) (l : list A) (x : A) :
  NoDup (List.map k l) -> In x l ->
  filter (fun y => k y =? k x) l = [x].
Proof.
  induction l as [|z l IH]; cbn; intros Hn Hx; [contradiction|].
  inversion Hn as [|? ? Hz Hl]; subst.
  destruct Hx as [->|Hx].
  - rewrite Z.eqb_refl. f_equal. apply filter_ninguno.
    intros y Hy. apply Z.eqb_neq. intros E. apply Hz. rewrite <- E.
    apply in_map. exact Hy.
  - destruct (Z.eqb_spec (k z) (k x)) as [E|E]; [|apply IH; assumption].
    exfalso. apply Hz. rewrite E. apply in_map. exact Hx.
Qed.

Lemma filter_get_mision (db : DB) (a : Z) (m : Mision.t) :
  NoDup (List.map Mision.id (misiones db)) ->
  get_mision db a = Some m ->
  filter (fun m' => Mision.id m' =? a) (misiones db) = [m].
Proof.
  intros Hn Hm. apply get_mision_id in Hm. destruct Hm as [<- Hin].
  apply (filter_clave_unica Mision.id); assumption.
Qed.

Lemma rel_misiones_pendientes_ids (db : DB) (pid : Z) :
  Inv db -> Inv2 db ->
  List.map Mision.id (rel_misiones_pendientes db pid) = pending_queue db pid /\
  forall m, In m (rel_misiones_pendientes db pid) -> In m (misiones db).
Proof.
  intros I I2. unfold rel_misiones_pendientes, pending_queue.
  assert (Hrows : forall r, In r (order_by_orden (pendientes_de db pid)) ->
                            exists m, get_mision db (Pendiente.mision_id r) = Some m).
  { intros r Hr. apply order_by_orden_In, filter_In in Hr. destruct Hr as [Hr _].
    pose proof (inv_pendientes db I) as Iq. rewrite Forall_forall in Iq.
    apply (Iq r Hr). }
  induction (order_by_orden (pendientes_de db pid)) as [|r l IH]; cbn.
  - split; [reflexivity|tauto].
  - destruct (Hrows r (or_introl eq_refl)) as [m Hm].
    rewrite (filter_get_mision db _ m (inv_mision_ids db I2) Hm). cbn.
    destruct IH as [IH1 IH2]; [intros r' Hr'; apply Hrows; right; exact Hr'|].
    split.
    + rewrite IH1. f_equal. apply (get_mision_id db _ m Hm).
    + intros m' [<-|H']; [apply (get_mision_id db _ m Hm)|apply IH2; exact H'].
Qed.

Lemma insertar_por_mision_perm (r : Completada.t) (l : list Completada.t) :
  Permutation (insertar_por_mision r l) (r :: l).
Proof.
  induction l as [|x l IH]; cbn; [apply Permutation_refl|].
  destruct (Completada.mision_id r <=? Completada.mision_id x);
    [apply Permutation_refl|].
  eapply Permutation_trans; [apply perm_skip; exact IH|apply perm_swap].
Qed.

Lemma por_mision_id_perm (l : list Completada.t) : Permutation (por_mision_id l) l.
Proof.
  induction l as [|r l IH]; cbn; [apply Permutation_refl|].
  eapply Permutation_trans; [apply insertar_por_mision_perm|].
  apply perm_skip. exact IH.
Qed.

Lemma insertar_por_mision_sorted (r : Completada.t) (l : list Completada.t) :
  StronglySorted Z.le (List.map Completada.mision_id l) ->
  StronglySorted Z.le (List.map Completada.mision_id (insertar_por_mision r l)).
Proof.
  induction l as [|x l IH]; cbn; intros Hs.
  - constructor; constructor.
  - inversion Hs as [|? ? Hs' Hf]; subst.
    destruct (Z.leb_spec (Completada.mision_id r) (Completada.mision_id x)) as [Hle|Hgt].
    + cbn. constructor; [exact Hs|].
      constructor; [exact Hle|].
      eapply Forall_impl; [|exact Hf]. cbn. intros; lia.
    + cbn. constructor; [apply IH; exact Hs'|].
      rewrite Forall_forall. intros v Hv. apply in_map_iff in Hv.
      destruct Hv as [y [<- Hy]].
      apply (Permutation_in _ (insertar_por_mision_perm r l)) in Hy.
      destruct Hy as [<-|Hy]; [lia|].
      rewrite Forall_forall in Hf. apply Hf. apply in_map. exact Hy.
Qed.

Lemma por_mision_id_sorted (l : list Completada.t) :
  StronglySorted Z.le (List.map Completada.mision_id (por_mision_id l)).
Proof.
  induction l as [|r l IH]; cbn; [constructor|].
  apply insertar_por_mision_sorted. exact IH.
Qed.

Lemma rel_misiones_completadas_ids (db : DB) (pid : Z) :
  Inv2 db ->
  List.map Mision.id (rel_misiones_completadas db pid) =
    List.map Completada.mision_id (por_mision_id (completadas_de db pid)) /\
  forall m, In m (rel_misiones_completadas db pid) -> In m (misiones db).
Proof.
  intros I2. unfold rel_misiones_completadas.
  assert (Hrows : forall r, In r (por_mision_id (completadas_de db pid)) ->
                            exists m, get_mision db (Completada.mision_id r) = Some m).
  { intros r Hr. apply (Permutation_in _ (por_mision_id_perm _)) in Hr.
    apply filter_In in Hr. destruct Hr as [Hr _].
    pose proof (inv_completadas db I2) as Ic. rewrite Forall_forall in Ic.
    apply (Ic r Hr). }
  induction (por_mision_id (completadas_de db pid)) as [|r l IH]; cbn.
  - split; [reflexivity|tauto].
  - destruct (Hrows r (or_introl eq_refl)) as [m Hm].
    rewrite (filter_get_mision db _ m (inv_mision_ids db I2) Hm). cbn.
    destruct IH as [IH1 IH2]; [intros r' Hr'; apply Hrows; right; exact Hr'|].
    split.
    + rewrite IH1. f_equal. apply (get_mision_id db _ m Hm).
    + intros m' [<-|H']; [apply (get_mision_id db _ m Hm)|apply IH2; exact H'].
Qed.

Lemma listar_misiones_personaje_ok (db : DB) (pid : Z) (p : Personaje.t) :
  get_personaje db pid = Some p ->
  (forall a, Personaje.mision_activa_id p = Some a ->
             a <> 0 /\ exists m, get_mision db a = Some m) ->
  listar_misiones_personaje pid db =
  (db,
   inr {| mp_personaje_id := pid;
          mp_mision_activa :=
            match Personaje.mision_activa_id p with
            | Some a => option_map mision_json (get_mision db a)
            | None => None
            end;
          mp_misiones_pendientes :=
            List.map mision_json (rel_misiones_pendientes db pid);
          mp_misiones_completadas :=
            List.map mision_json (rel_misiones_completadas db pid);
          mp_misiones_disponibles :=
            List.map mision_json
              (filter
                 (fun m =>
                    negb (id_in (Mision.id m)
                            (List.map Pendiente.mision_id (pendientes_de db pid))) &&
                    negb (id_in (Mision.id m)
                            (List.map Completada.mision_id (completadas_de db pid))) &&
                    negb (Mision.id m =? py_or (Personaje.mision_activa_id p) 0))
                 (misiones db)) |}).
Proof.
  intros Hp Ha. unfold listar_misiones_personaje. run_endpoint. rewrite Hp.
  destruct (Personaje.mision_activa_id p) as [a|] eqn:Ea; cbn.
  - destruct (Ha a eq_refl) as [Hnz [m Hm]].
    destruct (Z.eqb_spec a 0); [contradiction|]. cbn.
    rewrite Hm. reflexivity.
  - reflexivity.
Qed.

(** X13. In every store the API can produce, for an existing character
    [listar_misiones_personaje] succeeds without changing the store: the
    active quest and the pending quests, in queue order, carry the
    identifiers of the character's record; the completed quests are
    those of the character's completed set, listed by increasing
    identifier; all of them are quests of the catalog; and its
    available quests are the list [listar_misiones_disponibles] returns.
    For an unknown character whose identifier is an INTEGER value of
    the store it fails with the not-found error, status 404. *)
Theorem listar_misiones_personaje_correcta (db : DB) (pid : Z) :
  reachable db ->
  (forall p, get_personaje db pid = Some p ->
     exists res,
       listar_misiones_personaje pid db = (db, inr res) /\
       mp_personaje_id res = pid /\
       option_map MisionJSON.id (mp_mision_activa res) = active_quest db pid /\
       List.map MisionJSON.id (mp_misiones_pendientes res) = pending_queue db pid /\
       Permutation (List.map MisionJSON.id (mp_misiones_completadas res))
                   (completed_set db pid) /\
       StronglySorted Z.le (List.map MisionJSON.id (mp_misiones_completadas res)) /\
       (forall j,
          mp_mision_activa res = Some j \/
          In j (mp_misiones_pendientes res) \/
          In j (mp_misiones_completadas res) ->
          exists m, In m (misiones db) /\ j = mision_json m) /\
       listar_misiones_disponibles pid db = (db, inr (mp_misiones_disponibles res))) /\
  (en_rango pid = true ->
   get_personaje db pid = None ->
     listar_misiones_personaje pid db =
     (db, inl (HTTPException 404 (Texto "Personaje no encontrado")))).
Proof.
  intros R. pose proof (reachable_inv db R) as I.
  pose proof (reachable_inv2 db R) as I2. split.
  - intros p Hp.
    assert (Hact : forall a, Personaje.mision_activa_id p = Some a ->
                             a <> 0 /\ exists m, get_mision db a = Some m).
    { intros a Ha.
      pose proof (reachable_activa_positiva db pid a p I Hp Ha).
      destruct (personaje_en_tabla_ok db pid p I Hp) as [_ Hex].
      split; [lia|apply Hex; exact Ha]. }
    rewrite (listar_misiones_personaje_ok db pid p Hp Hact).
    eexists. split; [reflexivity|]. cbn.
    destruct (rel_misiones_pendientes_ids db pid I I2) as [P1 P2].
    destruct (rel_misiones_completadas_ids db pid I2) as [C1 C2].
    split; [reflexivity|]. split.
    { unfold active_quest. rewrite Hp.
      destruct (Personaje.mision_activa_id p) as [a|] eqn:Ea; [|reflexivity].
      destruct (Hact a eq_refl) as [_ [m Hm]]. rewrite Hm. cbn.
      f_equal. apply (get_mision_id db a m Hm). }
    split; [rewrite map_map; exact P1|].
    assert (Hc : List.map MisionJSON.id
                   (List.map mision_json (rel_misiones_completadas db pid)) =
                 List.map Completada.mision_id
                   (por_mision_id (completadas_de db pid)))
      by (rewrite map_map; exact C1).
    split.
    { rewrite Hc. unfold completed_set.
      apply Permutation_map. apply por_mision_id_perm. }
    split.
    { rewrite Hc. apply por_mision_id_sorted. }
    split.
    { intros j [Hj|[Hj|Hj]].
      - destruct (Personaje.mision_activa_id p) as [a|]; [|discriminate].
        destruct (get_mision db a) as [m|] eqn:Hm; [|discriminate].
        injection Hj as <-. exists m. split; [|reflexivity].
        apply (get_mision_id db a m Hm).
      - apply in_map_iff in Hj. destruct Hj as [m [<- Hm]]. eauto.
      - apply in_map_iff in Hj. destruct Hj as [m [<- Hm]]. eauto. }
    assert (Hz : Personaje.mision_activa_id p <> Some 0).
    { intros Ha. destruct (Hact 0 Ha) as [H0 _]. apply H0. reflexivity. }
    rewrite (listar_misiones_disponibles_ok db pid p Hp Hz).
    do 3 f_equal. unfold spec_list_available, active_quest, pending_queue,
      completed_set. rewrite Hp.
    apply filter_ext_in. intros m Hm.
    rewrite id_in_order_by_orden.
    pose proof (inv_misiones db I) as Im. rewrite Forall_forall in Im.
    destruct (Im m Hm) as [Hpos _].
    destruct (Personaje.mision_activa_id p) as [a|] eqn:Ea; cbn.
    + destruct (Hact a eq_refl) as [Hnz _].
      destruct (Z.eqb_spec a 0); [contradiction|].
      rewrite (Z.eqb_sym a (Mision.id m)).
      destruct (Mision.id m =? a), (id_in _ _), (id_in _ _); reflexivity.
    + destruct (Z.eqb_spec (Mision.id m) 0); [lia|].
      destruct (id_in _ _), (id_in _ _); reflexivity.
  - intros _ Hp. unfold listar_misiones_personaje. run_endpoint.
    rewrite Hp. reflexivity.
Qed.

Lemma listar_misiones_personaje_ejemplo :
  reachable db_variada /\
  completed_set db_variada 2 = [3; 1] /\
  exists res,
    listar_misiones_personaje 2 db_variada = (db_variada, inr res) /\
    Permutation (List.map MisionJSON.id (mp_misiones_completadas res))
                (completed_set db_variada 2) /\
    StronglySorted Z.le (List.map MisionJSON.id (mp_misiones_completadas res)).
Proof.
  split; [exact reachable_db_variada|]. split; [reflexivity|].
  destruct (proj1 (listar_misiones_personaje_correcta db_variada 2
                     reachable_db_variada)
              {| Personaje.id := 2; Personaje.nombre := lit "Luis";
                 Personaje.xp := 40; Personaje.mision_activa_id := None |}
              eq_refl)
    as [res [E [_ [_ [_ [P [S _]]]]]]].
  exists res. split; [exact E|]. split; [exact P|exact S].
Defined.

(** The listing for character 2 of [db_variada]: the quests completed
    in the order 3, 1 are listed as 1, 3. *)
Lemma listar_misiones_personaje_orden :
  option_map (fun res => List.map MisionJSON.id (mp_misiones_completadas res))
    (match snd (listar_misiones_personaje 2 db_variada) with
     | inr res => Some res
     | inl _ => None
     end) = Some [1; 3].
Proof.
  reflexivity.
Qed.

Lemma dict_get_In {V : Type} (d : list (Z * V)) (k : Z) (v : V) :
  dict_get d k = Some v -> In (k, v) d.
Proof.
  unfold dict_get. destruct (find _ (rev d)) as [[k' v']|] eqn:F; [|discriminate].
  cbn. intros H; injection H as <-.
  apply find_some in F. destruct F as [Hin E]. cbn in E.
  apply Z.eqb_eq in E. subst k'. apply in_rev. exact Hin.
Qed.

Lemma dict_get_some {V : Type} (d : list (Z * V)) (k : Z) (v : V) :
  In (k, v) d -> exists v', dict_get d k = Some v'.
Proof.
  intros Hin. unfold dict_get.
  destruct (find _ (rev d)) as [[k' v']|] eqn:F; [cbn; eauto|].
  exfalso. apply in_rev in Hin.
  pose proof (find_none _ _ F (k, v) Hin) as Hf. cbn in Hf.
  rewrite Z.eqb_refl in Hf. discriminate.
Qed.

Lemma dict_misiones_activas (db : DB) (ids : list Z) (a : Z) (m : Mision.t) :
  NoDup (List.map Mision.id (misiones db)) ->
  get_mision db a = Some m ->
  In a ids ->
  dict_get
    (List.map (fun r : Z * str => (fst r, r))
       (List.map (fun m' => (Mision.id m', Mision.titulo m'))
          (filter (fun m' => id_in (Mision.id m') ids) (misiones db)))) a =
  Some (a, Mision.titulo m).
Proof.
  intros Hn Hm Hin.
  destruct (get_mision_id db a m Hm) as [Hid Hmem].
  rewrite map_map. cbn.
  assert (Hex : exists v, dict_get
            (List.map (fun m' => (Mision.id m', (Mision.id m', Mision.titulo m')))
               (filter (fun m' => id_in (Mision.id m') ids) (misiones db))) a = Some v).
  { apply (dict_get_some _ a (a, Mision.titulo m)).
    apply in_map_iff. exists m. split; [rewrite Hid; reflexivity|].
    apply filter_In. split; [exact Hmem|].
    apply id_in_spec. rewrite Hid. exact Hin. }
  destruct Hex as [v Hv]. rewrite Hv. f_equal.
  apply dict_get_In in Hv. apply in_map_iff in Hv.
  destruct Hv as [m' [E Hm']]. apply filter_In in Hm'. destruct Hm' as [Hm' _].
  injection E as E1 <-.
  assert (m' = m).
  { apply (unico_por_clave Mision.id (misiones db)); try assumption. congruence. }
  subst m'. rewrite Hid. reflexivity.
Qed.

(** X14. In every store the API can produce, [listar_personajes]
    succeeds without changing the store and answers, for every character
    in table order, its identifier, name and experience, and its active
    quest with the title the catalog has for it, or no active quest when
    the character has none. *)
Theorem listar_personajes_correcta (db : DB) :
  reachable db ->
  listar_personajes db =
  (db, inr (List.map (personaje_json db) (personajes db))).
Proof.
  intros R. pose proof (reachable_inv db R) as I.
  pose proof (reachable_inv2 db R) as I2.
  assert (Hact : forall p a, In p (personajes db) ->
            Personaje.mision_activa_id p = Some a ->
            a <> 0 /\ exists m, get_mision db a = Some m).
  { intros p a Hin Ha.
    pose proof (inv_personajes db I) as Ip. rewrite Forall_forall in Ip.
    destruct (Ip p Hin) as [_ Hex]. destruct (Hex a Ha) as [m Hm].
    destruct (mision_en_catalogo_positiva db a m I Hm) as [Hpos _].
    split; [lia|eauto]. }
  unfold listar_personajes. run_endpoint.
  destruct (personajes db) as [|p0 l0] eqn:El; [reflexivity|].
  rewrite <- El in *. clear p0 l0 El.
  set (ids := List.map (fun p => py_or (Personaje.mision_activa_id p) 0)
                (filter (fun p => truthy (Personaje.mision_activa_id p))
                        (personajes db))).
  assert (Hids : forall p a, In p (personajes db) ->
            Personaje.mision_activa_id p = Some a -> In a ids).
  { intros p a Hin Ha. unfold ids. apply in_map_iff. exists p.
    destruct (Hact p a Hin Ha) as [Hnz _].
    split; [rewrite Ha; cbn; destruct (Z.eqb_spec a 0); [contradiction|reflexivity]|].
    apply filter_In. split; [exact Hin|].
    rewrite Ha. cbn. destruct (Z.eqb_spec a 0); [contradiction|reflexivity]. }
  destruct ids as [|i0 ids0] eqn:Ei; cbn.
  - do 2 f_equal. apply map_ext_in. intros p Hin. unfold personaje_json.
    destruct (Personaje.mision_activa_id p) as [a|] eqn:Ea; [|reflexivity].
    exfalso. apply (Hids p a Hin Ea).
  - do 2 f_equal. apply map_ext_in. intros p Hin.
    unfold personaje_json.
    destruct (Personaje.mision_activa_id p) as [a|] eqn:Ea; [|reflexivity].
    destruct (Hact p a Hin Ea) as [Hnz [m Hm]].
    cbn. destruct (Z.eqb_spec a 0); [contradiction|]. cbn.
    pose proof (Hids p a Hin Ea) as Ha'.
    pose proof (dict_misiones_activas db (i0 :: ids0) a m
                  (inv_mision_ids db I2) Hm Ha') as D.
    unfold id_in in D. cbn in D. rewrite D.
    rewrite Hm. reflexivity.
Qed.

Lemma listar_personajes_ejemplo :
  reachable db_en_cola /\
  listar_personajes db_en_cola =
  (db_en_cola,
   inr [ {| pj_id := 1; pj_nombre := lit "Ana"; pj_xp := 0;
            pj_mision_activa :=
              Some {| ma_id := 1; ma_titulo := lit "Tutorial" |} |} ]).
Proof.
  split; [exact reachable_db_en_cola|].
  exact (listar_personajes_correcta db_en_cola reachable_db_en_cola).
Defined.

(** ** More on the queue of [tda_cola.py] *)

Lemma cola_run_app (a b : list ColaMisiones.call) (q : ColaMisiones.t) :
  ColaMisiones.run (a ++ b) q =
  (fst (ColaMisiones.run b (fst (ColaMisiones.run a q))),
   snd (ColaMisiones.run a q) ++
   snd (ColaMisiones.run b (fst (ColaMisiones.run a q)))).
Proof.
  revert q; induction a as [|c a IH]; intros q; cbn.
  - destruct (ColaMisiones.run b q); reflexivity.
  - destruct (ColaMisiones.exec c q) as [q1 r]. rewrite IH.
    destruct (ColaMisiones.run a q1) as [q2 rs]. cbn.
    destruct (ColaMisiones.run b q2); reflexivity.
Qed.

Lemma cola_run_enqueue (xs : list Z) (q : ColaMisiones.t) :
  ColaMisiones.run (List.map ColaMisiones.Enqueue xs) q =
  ({| ColaMisiones.items := ColaMisiones.items q ++ xs |},
   List.map (fun _ => inr None) xs).
Proof.
  revert q; induction xs as [|x xs IH]; intros q; cbn.
  - rewrite app_nil_r. destruct q; reflexivity.
  - rewrite IH. cbn. rewrite <- app_assoc. reflexivity.
Qed.

Lemma cola_run_dequeue (xs : list Z) :
  ColaMisiones.run (repeat ColaMisiones.Dequeue (List.length xs))
                   {| ColaMisiones.items := xs |} =
  ({| ColaMisiones.items := [] |}, List.map (fun x => inr (Some x)) xs).
Proof.
  induction xs as [|x xs IH]; cbn; [reflexivity|].
  unfold ColaMisiones.dequeue, ColaMisiones.is_empty, len. cbn.
  rewrite IH. reflexivity.
Qed.

(** X15. Enqueueing a list of identifiers on a new queue and then
    calling [dequeue] once per identifier hands them back in the order
    they were enqueued and leaves the queue empty. *)
Theorem cola_ida_y_vuelta (xs : list Z) :
  ColaMisiones.run
    (List.map ColaMisiones.Enqueue xs ++
     repeat ColaMisiones.Dequeue (List.length xs))
    ColaMisiones.init =
  (ColaMisiones.init,
   List.map (fun _ => inr None) xs ++ List.map (fun x => inr (Some x)) xs).
Proof.
  rewrite cola_run_app, cola_run_enqueue. cbn.
  rewrite cola_run_dequeue. reflexivity.
Qed.

(** X16. After any sequence of calls on a new queue, [size] is the
    number of identifiers enqueued minus the number handed out by
    [dequeue], [is_empty] holds exactly when [size] is 0, and [first]
    returns what the next [dequeue] returns without changing the
    queue. *)
Theorem cola_size_y_first (cs : list ColaMisiones.call) :
  ColaMisiones.size (fst (ColaMisiones.run cs ColaMisiones.init)) =
    len (ColaMisiones.enqueued cs) -
    len (ColaMisiones.dequeued cs (snd (ColaMisiones.run cs ColaMisiones.init))) /\
  (ColaMisiones.is_empty (fst (ColaMisiones.run cs ColaMisiones.init)) = true <->
   ColaMisiones.size (fst (ColaMisiones.run cs ColaMisiones.init)) = 0) /\
  fst (ColaMisiones.first (fst (ColaMisiones.run cs ColaMisiones.init))) =
    fst (ColaMisiones.run cs ColaMisiones.init) /\
  snd (ColaMisiones.first (fst (ColaMisiones.run cs ColaMisiones.init))) =
    snd (ColaMisiones.dequeue (fst (ColaMisiones.run cs ColaMisiones.init))).
Proof.
  destruct (cola_run_fifo cs ColaMisiones.init) as [_ H]. cbn in H.
  set (q := fst (ColaMisiones.run cs ColaMisiones.init)) in *.
  split; [|split; [|split]].
  - unfold ColaMisiones.size, len. rewrite H, length_app. lia.
  - unfold ColaMisiones.is_empty, ColaMisiones.size. apply Z.eqb_eq.
  - unfold ColaMisiones.first. destruct (negb (ColaMisiones.is_empty q));
      [|reflexivity].
    destruct (ColaMisiones.index0 (ColaMisiones.items q)); reflexivity.
  - unfold ColaMisiones.first, ColaMisiones.dequeue.
    destruct (negb (ColaMisiones.is_empty q)); [|reflexivity].
    destruct (ColaMisiones.items q); reflexivity.
Qed.

(** ** Completed quests are not offered again *)

Lemma completadas_crecen (db : DB) (r : Request) :
  prefijo (personaje_misiones_completadas db)
          (personaje_misiones_completadas (handle r db)).
Proof.
  destruct r as [nombre|titulo xp|pid|pid|pid mid|pid]; cbn [handle].
  - destruct (crear_personaje_cases db nombre) as [->|[n [-> [Hne F]]]];
      [apply prefijo_refl|].
    rewrite (crear_personaje_ok db n Hne F). apply prefijo_refl.
  - rewrite (proj2 (crear_mision_tablas db titulo xp)). apply prefijo_refl.
  - rewrite listar_misiones_personaje_db. apply prefijo_refl.
  - rewrite listar_misiones_disponibles_db. apply prefijo_refl.
  - destruct (get_personaje db pid) as [p|] eqn:Hp;
      [|rewrite asignar_sin_personaje by assumption; apply prefijo_refl].
    destruct (get_mision db mid) as [m|] eqn:Hm;
      [|rewrite (asignar_sin_mision db pid mid p) by assumption;
        apply prefijo_refl].
    destruct (truthy (Personaje.mision_activa_id p)) eqn:Ht.
    + destruct (existsb (pk_pendiente pid mid) (personaje_misiones_pendientes db)) eqn:Hk.
      * rewrite (asignar_repetida db pid mid p m) by assumption. apply prefijo_refl.
      * rewrite (asignar_en_cola db pid mid p m) by assumption. apply prefijo_refl.
    + rewrite (asignar_activa db pid mid p m) by assumption. apply prefijo_refl.
  - destruct (get_personaje db pid) as [p|] eqn:Hp;
      [|rewrite completar_sin_personaje by assumption; apply prefijo_refl].
    destruct (truthy (Personaje.mision_activa_id p)) eqn:Ht;
      [|rewrite (completar_sin_activa db pid p) by assumption; apply prefijo_refl].
    destruct (truthy_some _ Ht) as [a [Ha Hnz]].
    destruct (get_mision db a) as [m|] eqn:Hm;
      [|rewrite (completar_activa_perdida db pid a p) by assumption;
        apply prefijo_refl].
    destruct (existsb (pk_completada pid a) (personaje_misiones_completadas db)) eqn:Hk;
      [rewrite (completar_ya_completada db pid a p m) by assumption;
       apply prefijo_refl|].
    destruct (en_rango (Personaje.xp p + Mision.xp m)) eqn:Hrg;
      [|rewrite (completar_desborda db pid a p m) by assumption;
        apply prefijo_refl].
    destruct (completar_ok db pid a p m Hp Ha Hnz Hm Hk Hrg)
      as [db' [-> [_ [_ [Hcom _]]]]]. cbn [fst].
    rewrite Hcom. eexists. reflexivity.
Qed.

Lemma completed_set_run (rs : list Request) (db : DB) (pid x : Z) :
  In x (completed_set db pid) -> In x (completed_set (run rs db) pid).
Proof.
  revert db; induction rs as [|r rs IH]; intros db H; cbn; [exact H|].
  apply IH. apply completed_set_In in H. destruct H as [row [Hr E]].
  apply completed_set_In. exists row. split; [|exact E].
  destruct (completadas_crecen db r) as [c ->]. apply in_or_app. left. exact Hr.
Qed.

(** X17. In every store the API can produce, a quest in the completed
    set of a character is never again among the quests
    [listar_misiones_disponibles] offers that character, whatever
    requests are served in between. *)
Theorem completada_nunca_disponible
  (db : DB) (rs : list Request) (pid x : Z) (l : list MisionJSON.t) :
  reachable db ->
  In x (completed_set db pid) ->
  snd (listar_misiones_disponibles pid (run rs db)) = inr l ->
  ~ In x (List.map MisionJSON.id l).
Proof.
  intros R Hx Hl.
  pose proof (reachable_run rs db R) as R'.
  pose proof (reachable_inv _ R') as I'.
  pose proof (completed_set_run rs db pid x Hx) as Hx'.
  destruct (get_personaje (run rs db) pid) as [p|] eqn:Hp.
  - assert (Hz : Personaje.mision_activa_id p <> Some 0).
    { intros Ha. pose proof (reachable_activa_positiva _ pid 0 p I' Hp Ha). lia. }
    rewrite (listar_misiones_disponibles_ok _ pid p Hp Hz) in Hl.
    injection Hl as <-. rewrite map_map. cbn.
    intros Hin. apply in_map_iff in Hin. destruct Hin as [m [E Hm]].
    apply spec_list_available_In in Hm. destruct Hm as [_ [_ [_ Hn]]].
    apply Hn. rewrite E. exact Hx'.
  - unfold listar_misiones_disponibles in Hl. revert Hl. run_endpoint.
    rewrite Hp. discriminate.
Qed.

Lemma completada_nunca_disponible_ejemplo :
  reachable db_repetida /\
  In 1 (completed_set db_repetida 1) /\
  ~ In 1 (List.map MisionJSON.id
            [ {| MisionJSON.id := 3; MisionJSON.titulo := lit "Cueva";
                 MisionJSON.xp := 30 |} ]).
Proof.
  assert (R : reachable db_repetida).
  { unfold db_repetida, db_activa, db_inicial.
    repeat apply reachable_run. constructor. }
  assert (H : In 1 (completed_set db_repetida 1)) by (left; reflexivity).
  split; [exact R|]. split; [exact H|].
  exact (completada_nunca_disponible db_repetida
           [AsignarMision 1 2; CompletarMision 1] 1 1 _ R H eq_refl).
Defined.
